(** * go-identicon: a shallow embedding of [identicon.go]

    The Go package derives a 64-bit code from a string ([Code]) and renders
    a 3x3 tile identicon from it ([Render]).  Integers are modelled as [Z]
    with the conversions of the source written out, Go strings as [string]
    (a sequence of 8-bit characters), [float64] as Rocq's primitive binary64
    floats, a Go panic as an explicit outcome, and a pair of results
    [(image.Image, error)] as a pair of options, [None] for [nil].

    Three libraries sit behind the package and are not part of it:
    - [crypto/sha512] is a section variable returning a 64-byte array;
    - [math/rand] is a section variable: the state of a source, its seeding
      function, and the index and next state that [Intn] computes for a
      positive bound.  A small generator is given as an instance, to run
      the renderer on concrete inputs;
    - [github.com/fogleman/gg] is modelled by the sequence of calls made on
      the drawing context, with their arguments; the raster they produce,
      and whether a canvas of the requested size can be allocated, are the
      library's.

    [encoding/hex], [strings.TrimPrefix] and [binary.BigEndian] are short
    and are written out.  The [*Settings] argument is taken to be non-nil.
    Floating-point expressions are evaluated operation by operation, each
    rounded to binary64. *)

From Stdlib Require Import ZArith List String Ascii Bool Lia Floats.
From Stdlib Require Strings.Byte.
Import ListNotations.
Local Open Scope string_scope.
Local Open Scope list_scope.
Local Open Scope Z_scope.

(** ** Go runtime: panics, slices, integer conversions *)

Inductive outcome (A : Type) : Type :=
| Done (a : A)
| Panic (msg : string).
Arguments Done {A} a.
Arguments Panic {A} msg.

Definition obind {A B : Type} (m : outcome A) (k : A -> outcome B) : outcome B :=
  match m with
  | Done a => k a
  | Panic msg => Panic msg
  end.

(** [len(s)] of a slice or string, as an [int]. *)
Definition len {A : Type} (l : list A) : Z := Z.of_nat (List.length l).

(** [s[i]]: a run-time panic when [i] is out of range. *)
Definition index {A : Type} (l : list A) (i : Z) : outcome A :=
  if (i <? 0) || (len l <=? i) then Panic "index out of range"
  else match nth_error l (Z.to_nat i) with
       | Some a => Done a
       | None => Panic "index out of range"
       end.

(** Conversion to a signed 64-bit integer ([int64(x)], [int(x)] on a 64-bit
    platform): two's complement wrap-around. *)
Definition int64 (z : Z) : Z := (z + 2 ^ 63) mod 2 ^ 64 - 2 ^ 63.
Definition int (z : Z) : Z := int64 z.

(** [float64(n)] for an integer [n]: rounding to nearest, ties to even. *)
Definition float64 (z : Z) : float :=
  SF2Prim (SpecFloat.binary_normalize prec emax z 0 false).

(** [math.MaxInt32] and [math.Pi] (as the [float64] constant it becomes). *)
Definition MaxInt32 : Z := 2147483647.
Definition Pi : float := 0x1.921fb54442d18p+1%float.

(** ** [error] values *)

Inductive error : Type :=
| InvalidByteError (c : ascii)     (* encoding/hex *)
| ErrLength                        (* encoding/hex *)
| errorString (msg : string).      (* errors.New *)

(** ** [encoding/hex] and [strings.TrimPrefix] *)

Module hex.

(** The library's [reverseHexTable]: the value of a hex digit, or no value
    (0xff in the table). *)
Definition fromHexChar (c : ascii) : option Z :=
  let n := Z.of_N (N_of_ascii c) in
  if (48 <=? n) && (n <=? 57) then Some (n - 48)
  else if (97 <=? n) && (n <=? 102) then Some (n - 97 + 10)
  else if (65 <=? n) && (n <=? 70) then Some (n - 65 + 10)
  else None.

(** [hex.Decode]: pairs of digits become bytes; the first invalid byte
    stops the loop, and an odd length is reported after the loop.  The
    bytes decoded so far are returned with the error. *)
Fixpoint Decode (src : string) : list Z * option error :=
  match src with
  | EmptyString => ([], None)
  | String p EmptyString =>
      match fromHexChar p with
      | None => ([], Some (InvalidByteError p))
      | Some _ => ([], Some ErrLength)
      end
  | String p (String q rest) =>
      match fromHexChar p with
      | None => ([], Some (InvalidByteError p))
      | Some a =>
          match fromHexChar q with
          | None => ([], Some (InvalidByteError q))
          | Some b =>
              let '(bs, err) := Decode rest in
              (Z.lor (Z.shiftl a 4) b :: bs, err)
          end
      end
  end.

Definition DecodeString (s : string) : list Z * option error := Decode s.

End hex.

Module strings.

(** [strings.TrimPrefix(s, prefix)] for a one-character prefix. *)
Definition TrimPrefix1 (s : string) (c : ascii) : string :=
  match s with
  | String c' rest => if Ascii.eqb c' c then rest else s
  | EmptyString => s
  end.

End strings.

(** ** [hexConvert] (identicon.go, lines 17-27) *)

Definition hexConvert (code : string) : Z * Z * Z * option error :=
  let code := strings.TrimPrefix1 code "#"%char in
  let '(b, err) := hex.DecodeString code in
  match err with
  | Some e => (0, 0, 0, Some e)
  | None =>
      if negb (len b =? 3)
      then (0, 0, 0, Some (errorString "code must be 6 digits long hex string"))
      else (List.nth 0 b 0, List.nth 1 b 0, List.nth 2 b 0, None)
  end.

(** ** [Code] (identicon.go, lines 29-33) *)

Module binary.

(** [binary.BigEndian.Uint64(b)]: reads [b[0..7]]; the bounds check on
    [b[7]] panics on a shorter slice. *)
Definition BigEndian_Uint64 (b : list Byte.byte) : outcome Z :=
  match b with
  | b0 :: b1 :: b2 :: b3 :: b4 :: b5 :: b6 :: b7 :: _ =>
      let u x := Z.of_N (Byte.to_N x) in
      Done (Z.lor (u b7)
           (Z.lor (Z.shiftl (u b6) 8)
           (Z.lor (Z.shiftl (u b5) 16)
           (Z.lor (Z.shiftl (u b4) 24)
           (Z.lor (Z.shiftl (u b3) 32)
           (Z.lor (Z.shiftl (u b2) 40)
           (Z.lor (Z.shiftl (u b1) 48)
                  (Z.shiftl (u b0) 56))))))))
  | _ => Panic "index out of range"
  end.

End binary.

(** A Go array [[64]byte]: its length is part of the type. *)
Record array64 : Type := {
  elems : list Byte.byte;
  elems_len : List.length elems = 64%nat
}.

Section Fingerprint.

(** [sha512.Sum512]: the digest is a [[64]byte]. *)
Variable Sum512 : list Byte.byte -> array64.

Definition Code (str : string) : outcome Z :=
  let buf := Sum512 (list_byte_of_string str) in
  binary.BigEndian_Uint64 (List.skipn 56 (elems buf)).

End Fingerprint.

(** ** Data of the package (identicon.go, lines 35-106) *)

Module Color.
Record t : Type := { Name : string; Code : string }.
End Color.

Definition DefaultColorPalette : list Color.t :=
  let c n h := {| Color.Name := n; Color.Code := h |} in
  [ c "lightBlack" "#2c2c2c"; c "lightBlackIntense" "#232323";
    c "turquoise" "#00bf93"; c "turquoiseIntense" "#16a086";
    c "mint" "#2dcc70"; c "mintIntense" "#27ae61";
    c "green" "#42e453"; c "greenIntense" "#24c333";
    c "yellow" "#ffff25"; c "yellowIntense" "#d9d921";
    c "yellowOrange" "#f1c40f"; c "yellowOrangeIntense" "#f39c11";
    c "brown" "#e67f22"; c "brownIntense" "#d25400";
    c "orange" "#ff944e"; c "orangeIntense" "#ff5500";
    c "red" "#e84c3d"; c "redIntense" "#c1392b";
    c "blue" "#3598db"; c "blueIntense" "#297fb8";
    c "darkBlue" "#34495e"; c "darkBlueIntense" "#2d3e50";
    c "lightGrey" "#ecf0f1"; c "lightGreyIntense" "#bec3c7";
    c "grey" "#95a5a5"; c "greyIntense" "#7e8c8d";
    c "magenta" "#ef3e96"; c "magentaIntense" "#e52383";
    c "violet" "#df21b9"; c "violetIntense" "#be127e";
    c "purple" "#9a59b5"; c "purpleIntense" "#8d44ad";
    c "lightBlue" "#7dc2d2"; c "lightBlueIntense" "#1cabbb";
    c "white" "#ffffff"; c "whiteIntense" "#f3f5f7";
    c "black" "#000000" ].

Definition DefaultBackgroundColor : string := "#2d3e50".

Record Settings : Type := {
  TwoColor : bool;
  Alpha : Z;                          (* uint8 *)
  TransparentBackground : bool;
  ColorPalette : list Color.t;
  BackgroundColors : list string
}.

Definition DefaultSettings : Settings :=
  let palette := DefaultColorPalette in
  let backgroundColors := ["#f3f5f7"; "#ecf0f1"; "#2d3e50"; "#393939"] in
  {| TwoColor := true;
     Alpha := 255;
     ColorPalette := palette;
     TransparentBackground := false;
     BackgroundColors := backgroundColors |}.

(** ** [image/color] and the drawing context of [gg] *)

Module color.
Record RGBA : Type := { R : Z; G : Z; B : Z; A : Z }.
End color.

Module gg.

Record Point : Type := Pt { X : float; Y : float }.

(** The methods of [*gg.Context] that the package calls. *)
Inductive call : Type :=
| CPush
| CPop
| CTranslate (x y : float)
| CRotateAbout (angle x y : float)
| CMoveTo (x y : float)
| CLineTo (x y : float)
| CClosePath
| CDrawRectangle (x y w h : float)
| CSetColor (c : color.RGBA)
| CSetRGB255 (r g b : Z)
| CFill.

(** A context is the size it was created with and the calls made on it so
    far, oldest first. *)
Record Context : Type := { width : Z; height : Z; calls : list call }.

Definition NewContext (w h : Z) : Context :=
  {| width := w; height := h; calls := [] |}.

Definition invoke (dc : Context) (c : call) : Context :=
  {| width := width dc; height := height dc; calls := calls dc ++ [c] |}.

Definition Push dc := invoke dc CPush.
Definition Pop dc := invoke dc CPop.
Definition Translate dc x y := invoke dc (CTranslate x y).
Definition RotateAbout dc angle x y := invoke dc (CRotateAbout angle x y).
Definition MoveTo dc x y := invoke dc (CMoveTo x y).
Definition LineTo dc x y := invoke dc (CLineTo x y).
Definition ClosePath dc := invoke dc CClosePath.
Definition DrawRectangle dc x y w h := invoke dc (CDrawRectangle x y w h).
Definition SetColor dc c := invoke dc (CSetColor c).
Definition SetRGB255 dc r g b := invoke dc (CSetRGB255 r g b).
Definition Fill dc := invoke dc CFill.

(** [dc.Image()]: the image that the context has drawn. *)
Record Raster : Type := { side_w : Z; side_h : Z; drawn : list call }.

Definition Image (dc : Context) : Raster :=
  {| side_w := width dc; side_h := height dc; drawn := calls dc |}.

End gg.

(** ** The patch catalogue (identicon.go, lines 202-238) *)

Definition pathSet : list (list gg.Point) :=
  let P := gg.Pt in
  ([ (* [0] full square *)
     [P 0 0; P 4 0; P 4 4; P 0 4];
     (* [1] right-angled triangle pointing top-left *)
     [P 0 0; P 4 0; P 0 4];
     (* [2] upwardy triangle *)
     [P 2 0; P 4 4; P 0 4];
     (* [3] left half of square, standing rectangle *)
     [P 0 0; P 2 0; P 2 4; P 0 4];
     (* [4] square standing on diagonale *)
     [P 2 0; P 4 2; P 2 4; P 0 2];
     (* [5] kite pointing topleft *)
     [P 0 0; P 4 2; P 4 4; P 2 4];
     (* [6] Sierpinski triangle, fractal triangles *)
     [P 2 0; P 4 4; P 2 4; P 3 2; P 1 2; P 2 4; P 0 4];
     (* [7] sharp angled lefttop pointing triangle *)
     [P 0 0; P 4 2; P 2 4];
     (* [8] small centered square *)
     [P 1 1; P 3 1; P 3 3; P 1 3];
     (* [9] two small triangles *)
     [P 2 0; P 4 0; P 0 4; P 0 2; P 2 2];
     (* [10] small topleft square *)
     [P 0 0; P 2 0; P 2 2; P 0 2];
     (* [11] downpointing right-angled triangle on bottom *)
     [P 0 2; P 4 2; P 2 4];
     (* [12] uppointing right-angled triangle on bottom *)
     [P 2 2; P 4 4; P 0 4];
     (* [13] small rightbottom pointing right-angled triangle on topleft *)
     [P 2 0; P 2 2; P 0 2];
     (* [14] small lefttop pointing right-angled triangle on topleft *)
     [P 0 0; P 2 0; P 0 2];
     (* [15] empty *)
     [] ])%float.

Definition middlePatchSet : list Z := [0; 4; 8; 15].

(** ** [drawPatch] (identicon.go, lines 180-200) *)

Definition drawPatch (pos : gg.Point) (turn : Z) (invert : bool) (type_ : Z)
    (image : gg.Context) (patchSize : float) (foreColor : color.RGBA)
    (penWidth : Z) : outcome gg.Context :=
  obind (index pathSet type_) (fun path =>
  let turn := Z.rem turn 4 in
  let image := gg.Push image in
  let image := gg.Translate image
                 (gg.X pos * patchSize + float64 penWidth / 2)%float
                 (gg.Y pos * patchSize + float64 penWidth / 2)%float in
  let image := gg.RotateAbout image (float64 turn * Pi / 2)%float
                 (patchSize / 2)%float (patchSize / 2)%float in
  let image := fold_left
                 (fun image p =>
                    gg.LineTo image (gg.X p / 4 * patchSize)%float
                                    (gg.Y p / 4 * patchSize)%float)
                 path image in
  let image := gg.ClosePath image in
  let image :=
    if invert then
      let image := gg.MoveTo image 0%float 0%float in
      let image := gg.LineTo image 0%float patchSize in
      let image := gg.LineTo image patchSize patchSize in
      let image := gg.LineTo image patchSize 0%float in
      gg.ClosePath image
    else image in
  let image := gg.SetColor image foreColor in
  let image := gg.Fill image in
  Done (gg.Pop image)).

(** ** Runs: the outcome of a call together with the draws it made

    A run records, next to its outcome, every successful call of
    [rnd.Intn]: the bound that was passed and the index that came back,
    oldest first.  The record is an observation of the execution; the
    program cannot read it. *)

Record run (A : Type) : Type := mkRun {
  draws : list (Z * Z);
  result : outcome A
}.
Arguments mkRun {A} draws result.
Arguments draws {A} r.
Arguments result {A} r.

Definition ret {A : Type} (a : A) : run A := mkRun [] (Done a).

Definition lift {A : Type} (o : outcome A) : run A := mkRun [] o.

Definition bind {A B : Type} (m : run A) (k : A -> run B) : run B :=
  match result m with
  | Done a => let r := k a in mkRun (draws m ++ draws r) (result r)
  | Panic msg => mkRun (draws m) (Panic msg)
  end.

Notation "x <- m ;; k" := (bind m (fun x => k))
  (at level 61, m at next level, right associativity).
Notation "' p <- m ;; k" := (bind m (fun x => match x with p => k end))
  (at level 61, p pattern, m at next level, right associativity).

(** [for i, p := range l { s = body i p s }], with the panics of the body. *)
Fixpoint forRange {A S : Type} (l : list A) (i : Z)
    (body : Z -> A -> S -> outcome S) (s : S) : outcome S :=
  match l with
  | [] => Done s
  | p :: l' => obind (body i p s) (forRange l' (i + 1) body)
  end.

(** ** The bit fields of the code (identicon.go, lines 113-128) *)

Definition seed (code : Z) : Z := int64 (code mod MaxInt32).

Definition middleTypeRaw (code : Z) : Z := int (Z.land code 0x03).
Definition middleInvert (code : Z) : bool := Z.land (Z.shiftr code 2) 0x01 =? 1.

Definition cornerType (code : Z) : Z := int (Z.land (Z.shiftr code 3) 0x0f).
Definition cornerInvert (code : Z) : bool := Z.land (Z.shiftr code 7) 0x01 =? 1.
Definition cornerTurn (code : Z) : Z := int (Z.land (Z.shiftr code 8) 0x03).

Definition sideType (code : Z) : Z := int (Z.land (Z.shiftr code 10) 0x0f).
Definition sideInvert (code : Z) : bool := Z.land (Z.shiftr code 14) 0x01 =? 1.
Definition sideTurn (code : Z) : Z := int (Z.land (Z.shiftr code 15) 0x03).

Definition swapCross (code : Z) : bool := Z.land (Z.shiftr code 47) 0x01 =? 1.

(** Line 130: [middleType = middlePatchSet[middleType]]. *)
Definition middleType (code : Z) : outcome Z :=
  index middlePatchSet (middleTypeRaw code).

(** ** Specification-side reading of the tile compositor

    The calls that drawing one tile makes, written from the description of
    the per-tile draw: frame pushed, translated to the tile, rotated by the
    quarter turns taken mod 4 about the tile centre, the template traced on
    the grid of 4 units scaled to the tile side and closed, the tile
    boundary added when inverting, then colour, fill and frame popped. *)

Definition boundaryCalls (patchSize : float) : list gg.call :=
  [ gg.CMoveTo 0 0; gg.CLineTo 0 patchSize; gg.CLineTo patchSize patchSize;
    gg.CLineTo patchSize 0; gg.CClosePath ]%float.

Definition templateCalls (patchSize : float) (templateIndex : Z) : list gg.call :=
  List.map (fun p => gg.CLineTo (gg.X p / 4 * patchSize)%float
                                (gg.Y p / 4 * patchSize)%float)
           (List.nth (Z.to_nat templateIndex) pathSet []).

Definition tileCalls (patchSize : float) (gridPos : gg.Point) (turnCount : Z)
    (invert : bool) (templateIndex : Z) (c : color.RGBA) : list gg.call :=
  ([ gg.CPush;
    gg.CTranslate (gg.X gridPos * patchSize + 0.5)%float
                  (gg.Y gridPos * patchSize + 0.5)%float;
    gg.CRotateAbout (float64 (turnCount mod 4) * Pi / 2)%float
                    (patchSize / 2)%float (patchSize / 2)%float ]
  ++ templateCalls patchSize templateIndex
  ++ [ gg.CClosePath ]
  ++ (if invert then boundaryCalls patchSize else [])
  ++ [ gg.CSetColor c; gg.CFill; gg.CPop ])%list.

Definition backgroundCalls (totalSize : Z) (r g b : Z) : list gg.call :=
  [ gg.CDrawRectangle 0 0 (float64 totalSize) (float64 totalSize);
    gg.CSetRGB255 r g b; gg.CFill ]%float.

(** Middle tile, then the sides N, E, S, W, then the corners NW, NE, SE, SW. *)
Definition nineTiles (code totalSize : Z) (middleTemplate : Z)
    (middleColor foreColor otherColor : color.RGBA) : list gg.call :=
  let patchSize := (float64 totalSize / 3)%float in
  let side (i : Z) (gridPos : gg.Point) :=
    tileCalls patchSize gridPos (sideTurn code + 1 + i)
      (sideInvert code) (sideType code) foreColor in
  let corner (i : Z) (gridPos : gg.Point) :=
    tileCalls patchSize gridPos (cornerTurn code + 1 + i)
      (cornerInvert code) (cornerType code) otherColor in
  (tileCalls patchSize (gg.Pt 1 1) 0 (middleInvert code) middleTemplate middleColor
   ++ side 0 (gg.Pt 1 0) ++ side 1 (gg.Pt 2 1)
   ++ side 2 (gg.Pt 1 2) ++ side 3 (gg.Pt 0 1)
   ++ corner 0 (gg.Pt 0 0) ++ corner 1 (gg.Pt 2 0)
   ++ corner 2 (gg.Pt 2 2) ++ corner 3 (gg.Pt 0 2))%list.

(** ** The nine tiles (identicon.go, lines 170-177)

    The tail of [Render]: the middle tile, the two loops over the sides and
    the corners, and the return of the image. *)

Definition drawTiles (code : Z) (middleType : Z) (image : gg.Context)
    (patchSize : float) (middleColor foreColor secondColor : color.RGBA)
    (penWidth : Z) : run (option gg.Raster * option error) :=
  image <- lift (drawPatch (gg.Pt 1 1) 0 (middleInvert code) middleType image
                   patchSize middleColor penWidth) ;;
  image <- lift (forRange [gg.Pt 1 0; gg.Pt 2 1; gg.Pt 1 2; gg.Pt 0 1] 0
                   (fun i p image =>
                      drawPatch p (sideTurn code + 1 + i) (sideInvert code)
                        (sideType code) image patchSize foreColor penWidth)
                   image) ;;
  image <- lift (forRange [gg.Pt 0 0; gg.Pt 2 0; gg.Pt 2 2; gg.Pt 0 2] 0
                   (fun i p image =>
                      drawPatch p (cornerTurn code + 1 + i) (cornerInvert code)
                        (cornerType code) image patchSize secondColor penWidth)
                   image) ;;
  ret (Some (gg.Image image), None).

(** ** Specification-side reading of colour strings

    A colour string is well formed when it is exactly 6 hex digits,
    optionally prefixed with [#]. *)

Definition isHexDigit (c : ascii) : bool :=
  let n := N_of_ascii c in
  ((48 <=? n) && (n <=? 57) || (65 <=? n) && (n <=? 70)
   || (97 <=? n) && (n <=? 102))%N.

Definition sixHexDigits (s : string) : bool :=
  (String.length s =? 6)%nat && forallb isHexDigit (list_ascii_of_string s).

Definition validColor (s : string) : bool :=
  sixHexDigits s
  || match s with
     | String c rest => Ascii.eqb c "#"%char && sixHexDigits rest
     | EmptyString => false
     end.

(** The colour strings that a run resolved, in order, read off its draws:
    the first two draws index the palette, a third one the background
    list. *)
Definition resolvedColors (settings : Settings) (ds : list (Z * Z)) : list string :=
  let entry (l : list string) (d : Z * Z) := List.nth (Z.to_nat (snd d)) l "" in
  List.map (entry (List.map Color.Code (ColorPalette settings))) (firstn 2 ds)
  ++ List.map (entry (BackgroundColors settings)) (skipn 2 ds).

(** ** Specification-side reading of the scale

    The source scales a template coordinate [x] as [x / 4 * patchSize]; the
    description reads "multiplied by [patchSize / 4]".  [scalesAgree] tests,
    for one size, that the two agree in binary64 on every coordinate of the
    grid, and that the boundary corner [patchSize] is the grid coordinate 4
    at that scale. *)

Definition scalesAgree (totalSize : Z) : bool :=
  let patchSize := (float64 totalSize / 3)%float in
  forallb (fun x => PrimFloat.Leibniz.eqb (x / 4 * patchSize) (x * (patchSize / 4)))%float
    [0; 1; 2; 3; 4]%float
  && PrimFloat.Leibniz.eqb (0 / 4 * patchSize) 0
  && PrimFloat.Leibniz.eqb (4 / 4 * patchSize) patchSize.

(** [f] holds of the [k] integers from [n] upwards. *)
Fixpoint allFrom (k : nat) (n : Z) (f : Z -> bool) : bool :=
  match k with
  | O => true
  | S k' => f n && allFrom k' (n + 1) f
  end.

(** ** Specification-side reading of bit 47 and of "the same shapes" *)

(** The code with bit 47 flipped and every other bit unchanged. *)
Definition flipSwapCross (code : Z) : Z := Z.lxor code (2 ^ 47).

Definition noColor : color.RGBA :=
  {| color.R := 0; color.G := 0; color.B := 0; color.A := 0 |}.

(** The calls with the colour of the first [SetColor] blanked. *)
Fixpoint blankFirstColor (cs : list gg.call) : list gg.call :=
  match cs with
  | [] => []
  | gg.CSetColor _ :: cs' => gg.CSetColor noColor :: cs'
  | c :: cs' => c :: blankFirstColor cs'
  end.

(** The calls with every colour blanked: what is drawn where, in which
    order, whatever the colours. *)
Definition blankColors (cs : list gg.call) : list gg.call :=
  List.map (fun c => match c with
                     | gg.CSetColor _ => gg.CSetColor noColor
                     | gg.CSetRGB255 _ _ _ => gg.CSetRGB255 0 0 0
                     | c => c
                     end) cs.

(** The image that a run returned, if it returned one. *)
Definition imageOf (r : run (option gg.Raster * option error)) : gg.Raster :=
  match result r with
  | Done (Some img, _) => img
  | _ => {| gg.side_w := 0; gg.side_h := 0; gg.drawn := [] |}
  end.

(** ** Specification-side reading of the fill rule

    [gg] fills a compound path by the non-zero winding rule.  The rule is
    written here on the grid of 4 units in which the templates are given, in
    the frame of the tile, for points with rational coordinates
    [(x/d, y/d)], [d > 0]. *)

(** The templates of [pathSet] in grid units. *)
Definition pathSetGrid : list (list (Z * Z)) :=
  [ [(0, 0); (4, 0); (4, 4); (0, 4)];
    [(0, 0); (4, 0); (0, 4)];
    [(2, 0); (4, 4); (0, 4)];
    [(0, 0); (2, 0); (2, 4); (0, 4)];
    [(2, 0); (4, 2); (2, 4); (0, 2)];
    [(0, 0); (4, 2); (4, 4); (2, 4)];
    [(2, 0); (4, 4); (2, 4); (3, 2); (1, 2); (2, 4); (0, 4)];
    [(0, 0); (4, 2); (2, 4)];
    [(1, 1); (3, 1); (3, 3); (1, 3)];
    [(2, 0); (4, 0); (0, 4); (0, 2); (2, 2)];
    [(0, 0); (2, 0); (2, 2); (0, 2)];
    [(0, 2); (4, 2); (2, 4)];
    [(2, 2); (4, 4); (0, 4)];
    [(2, 0); (2, 2); (0, 2)];
    [(0, 0); (2, 0); (0, 2)];
    [] ].

(** The boundary that [drawPatch] adds when inverting, in grid units: the
    tile side is 4 units, and the corners are visited as lines 191-194 do. *)
Definition boundaryGrid : list (Z * Z) := [(0, 0); (0, 4); (4, 4); (4, 0)].

(** The directed edges of a closed sub-path. *)
Fixpoint edgesFrom (start : Z * Z) (pts : list (Z * Z)) : list ((Z * Z) * (Z * Z)) :=
  match pts with
  | [] => []
  | p :: rest =>
      match rest with
      | [] => [(p, start)]
      | q :: _ => (p, q) :: edgesFrom start rest
      end
  end.

Definition edges (subpath : list (Z * Z)) : list ((Z * Z) * (Z * Z)) :=
  match subpath with
  | [] => []
  | start :: _ => edgesFrom start subpath
  end.

(** What the edge from [p] to [q] adds to the winding number around
    [(x/d, y/d)]: +1 or -1 when the ray from the point towards larger
    abscissas crosses the edge, by the direction of the crossing. *)
Definition crossing (x y d : Z) (e : (Z * Z) * (Z * Z)) : Z :=
  let '((px, py), (qx, qy)) := e in
  let side := (qx - px) * (y - py * d) - (x - px * d) * (qy - py) in
  if (py * d <=? y) && (y <? qy * d) then (if 0 <? side then 1 else 0)
  else if (qy * d <=? y) && (y <? py * d) then (if side <? 0 then -1 else 0)
  else 0.

Definition winding (x y d : Z) (subpaths : list (list (Z * Z))) : Z :=
  fold_right Z.add 0
    (List.map (crossing x y d) (List.concat (List.map edges subpaths))).

(** The point is painted by a fill of the compound path. *)
Definition filled (x y d : Z) (subpaths : list (list (Z * Z))) : bool :=
  negb (winding x y d subpaths =? 0).

(** ** [Render] (identicon.go, lines 108-178) *)

Section Renderer.

(** [math/rand]: the state of a source, [rand.NewSource], and the index
    and next state that [Intn] yields for a positive bound. *)
Variable Source : Type.
Variable NewSource : Z -> Source.
Variable Int31n : Source -> Z -> Z * Source.

Definition Rand : Type := Source.
Definition rand_New (src : Source) : Rand := src.

(** [rnd.Intn(n)] panics unless [n] is positive. *)
Definition Intn (rnd : Rand) (n : Z) : run (Z * Rand) :=
  if n <=? 0 then lift (Panic "invalid argument to Intn")
  else let '(i, rnd') := Int31n rnd n in mkRun [(n, i)] (Done (i, rnd')).

Definition Render (code : Z) (totalSize : Z) (settings : Settings)
    : run (option gg.Raster * option error) :=
  let rnd := rand_New (NewSource (seed code)) in

  let penWidth := 1 in

  let swapCross := swapCross code in

  middleType <- lift (middleType code) ;;

  '(i, rnd) <- Intn rnd (len (ColorPalette settings)) ;;
  randomFirstColor <- lift (index (ColorPalette settings) i) ;;
  let '(red, green, blue, err) := hexConvert (Color.Code randomFirstColor) in
  match err with
  | Some e => ret (None, Some e)
  | None =>
  '(i, rnd) <- Intn rnd (len (ColorPalette settings)) ;;
  randomSecondColor <- lift (index (ColorPalette settings) i) ;;
  let '(secondRed, secondGreen, secondBlue, err) :=
    hexConvert (Color.Code randomSecondColor) in
  match err with
  | Some e => ret (None, Some e)
  | None =>

  let foreColor :=
    {| color.R := red; color.G := green; color.B := blue;
       color.A := Alpha settings |} in
  let secondColor :=
    if TwoColor settings then
      {| color.R := secondRed; color.G := secondGreen;
         color.B := secondBlue; color.A := Alpha settings |}
    else foreColor in
  let middleColor := if swapCross then foreColor else secondColor in
  let image := gg.NewContext totalSize totalSize in
  let patchSize := (float64 totalSize / 3)%float in

  (* lines 170-177, reached from both branches of the test of line 159 *)
  let tiles (image : gg.Context) : run (option gg.Raster * option error) :=
    drawTiles code middleType image patchSize middleColor foreColor
      secondColor penWidth in

  if negb (TransparentBackground settings) then
    '(i, rnd) <- Intn rnd (len (BackgroundColors settings)) ;;
    randomBackgroundColor <- lift (index (BackgroundColors settings) i) ;;
    let '(bgRed, bgGreen, bgBlue, err) := hexConvert randomBackgroundColor in
    match err with
    | Some e => ret (None, Some e)
    | None =>
        let image := gg.DrawRectangle image 0%float 0%float
                       (float64 totalSize) (float64 totalSize) in
        let image := gg.SetRGB255 image (int bgRed) (int bgGreen) (int bgBlue) in
        let image := gg.Fill image in
        tiles image
    end
  else tiles image
  end
  end.

(** *** The same function, outcome by outcome

    [RenderFlat] lists the outcomes of [Render] one by one, each with the
    draws made up to it: a panic of [Intn] or of an index expression, a
    colour error, or the image with the calls of [nineTiles].  It is
    proved equal to [Render] below and used to reason by cases. *)

Definition RenderFlat (code : Z) (totalSize : Z) (settings : Settings)
    : run (option gg.Raster * option error) :=
  let palette := ColorPalette settings in
  let backgrounds := BackgroundColors settings in
  let middleTemplate := List.nth (Z.to_nat (middleTypeRaw code)) middlePatchSet 0 in
  let raster cs :=
    Some {| gg.side_w := totalSize; gg.side_h := totalSize; gg.drawn := cs |} in
  if len palette <=? 0 then mkRun [] (Panic "invalid argument to Intn") else
  let '(i1, rnd1) := Int31n (rand_New (NewSource (seed code))) (len palette) in
  let d1 := [(len palette, i1)] in
  match index palette i1 with
  | Panic msg => mkRun d1 (Panic msg)
  | Done first =>
  match hexConvert (Color.Code first) with
  | (_, _, _, Some e) => mkRun d1 (Done (None, Some e))
  | (red, green, blue, None) =>
  let '(i2, rnd2) := Int31n rnd1 (len palette) in
  let d2 := [(len palette, i1); (len palette, i2)] in
  match index palette i2 with
  | Panic msg => mkRun d2 (Panic msg)
  | Done second =>
  match hexConvert (Color.Code second) with
  | (_, _, _, Some e) => mkRun d2 (Done (None, Some e))
  | (secondRed, secondGreen, secondBlue, None) =>
  let foreColor :=
    {| color.R := red; color.G := green; color.B := blue;
       color.A := Alpha settings |} in
  let otherColor :=
    if TwoColor settings then
      {| color.R := secondRed; color.G := secondGreen;
         color.B := secondBlue; color.A := Alpha settings |}
    else foreColor in
  let middleColor := if swapCross code then foreColor else otherColor in
  let tiles :=
    nineTiles code totalSize middleTemplate middleColor foreColor otherColor in
  if TransparentBackground settings then mkRun d2 (Done (raster tiles, None))
  else
  if len backgrounds <=? 0 then mkRun d2 (Panic "invalid argument to Intn") else
  let '(i3, _) := Int31n rnd2 (len backgrounds) in
  let d3 := [(len palette, i1); (len palette, i2); (len backgrounds, i3)] in
  match index backgrounds i3 with
  | Panic msg => mkRun d3 (Panic msg)
  | Done background =>
  match hexConvert background with
  | (_, _, _, Some e) => mkRun d3 (Done (None, Some e))
  | (bgRed, bgGreen, bgBlue, None) =>
      mkRun d3 (Done (raster (backgroundCalls totalSize bgRed bgGreen bgBlue
                                ++ tiles), None))
  end end end end end end.

(** Two calls with the same arguments, one after the other, as a caller
    makes them. *)
Definition RenderTwice (code : Z) (totalSize : Z) (settings : Settings)
    : run ((option gg.Raster * option error)
           * (option gg.Raster * option error)) :=
  r1 <- Render code totalSize settings ;;
  r2 <- Render code totalSize settings ;;
  ret (r1, r2).

(** The reading of "flipping bit 47 changes at most the middle tile's fill
    colour": when both codes render to an image, the two images make the
    same calls once the colour of the middle tile, which is the first
    [SetColor] of a rendering, is blanked. *)
Definition swapCross_affects_middle_color_only : Prop :=
  forall (code totalSize : Z) (settings : Settings) (img1 img2 : gg.Raster),
    result (Render code totalSize settings) = Done (Some img1, None) ->
    result (Render (flipSwapCross code) totalSize settings)
      = Done (Some img2, None) ->
    blankFirstColor (gg.drawn img1) = blankFirstColor (gg.drawn img2).

End Renderer.

(** ** A reference generator

    The generator of [math/rand] is a parameter of the development.  To run
    [Render] on concrete inputs the parameter is instantiated with the
    Lehmer generator x -> 48271 * x mod (2^31 - 1), seeded as [math/rand]
    normalises its seeds (reduced modulo 2^31 - 1, made positive, and 0
    replaced by 89482311), and whose [Intn] reduces the new state modulo the
    bound. *)

Module Lehmer.

Definition Source : Type := Z.

Definition NewSource (seed : Z) : Source :=
  let seed := Z.rem seed MaxInt32 in
  let seed := if seed <? 0 then seed + MaxInt32 else seed in
  if seed =? 0 then 89482311 else seed.

Definition Int31n (x : Source) (n : Z) : Z * Source :=
  let x' := (48271 * x) mod MaxInt32 in
  (x' mod n, x').

End Lehmer.

(** Settings whose only palette entry is not a colour. *)
Definition brokenSettings : Settings :=
  {| TwoColor := true;
     Alpha := 255;
     ColorPalette := [ {| Color.Name := "broken"; Color.Code := "#zzz" |} ];
     TransparentBackground := false;
     BackgroundColors := ["#ffffff"] |}.

Definition RenderL : Z -> Z -> Settings -> run (option gg.Raster * option error) :=
  Render Lehmer.Source Lehmer.NewSource Lehmer.Int31n.


(** ** Specification-side readings of the claims about [Code] and the fields *)

(** The value of a byte sequence read as a big-endian unsigned integer. *)
Definition big_endian (l : list Byte.byte) : Z :=
  fold_left (fun acc b => acc * 256 + Z.of_N (Byte.to_N b)) l 0.

(** The final [n] elements of a sequence. *)
Definition final {A : Type} (n : nat) (l : list A) : list A :=
  skipn (List.length l - n) l.

(** The unsigned value of the [width] bits of [code] from bit [lo] upwards,
    bit [lo] being the least significant. *)
Fixpoint bitfield (code lo : Z) (width : nat) : Z :=
  match width with
  | O => 0
  | S w => Z.b2z (Z.testbit code lo) + 2 * bitfield code (lo + 1) w
  end.

(** * Further definitions: the rest of the package and the server *)

From Stdlib Require Import DecimalString DecimalZ.

(** ** Specification-side reading of hex colours: writing a colour out *)

(** The lower-case hex digit of a value below 16. *)
Definition hexDigit (v : Z) : ascii :=
  if v <? 10 then ascii_of_N (Z.to_N (48 + v)) else ascii_of_N (Z.to_N (87 + v)).

(** The two hex digits of a byte, then of three bytes. *)
Definition hexByte (b : Z) (rest : string) : string :=
  String (hexDigit (b / 16)) (String (hexDigit (b mod 16)) rest).

Definition hexColor (r g b : Z) : string :=
  hexByte r (hexByte g (hexByte b EmptyString)).

(** ASCII lower case of a character and of a string. *)
Definition lowerChar (c : ascii) : ascii :=
  let n := N_of_ascii c in
  if ((65 <=? n) && (n <=? 90))%N then ascii_of_N (n + 32) else c.

Fixpoint lowerString (s : string) : string :=
  match s with
  | EmptyString => EmptyString
  | String c rest => String (lowerChar c) (lowerString rest)
  end.

(** The first character of a string that is not a hex digit. *)
Definition firstNonHex (s : string) : option ascii :=
  List.find (fun c => negb (isHexDigit c)) (list_ascii_of_string s).

(** ** Specification-side reading of settings and of the layout *)

(** Every configured colour of the settings that a rendering can reach is
    well formed: the palette entries, and the background colours unless
    the background is transparent. *)
Definition colorsValid (settings : Settings) : bool :=
  forallb (fun c => validColor (Color.Code c)) (ColorPalette settings)
  && (TransparentBackground settings
      || forallb validColor (BackgroundColors settings)).

(** The colours of the [SetColor] calls, in order. *)
Definition tileColors (cs : list gg.call) : list color.RGBA :=
  List.flat_map (fun c => match c with gg.CSetColor col => [col] | _ => [] end) cs.

(** The depth of the stack of saved frames after the calls, starting at
    depth [d]; no depth when a frame is pushed inside a pushed frame, or
    popped from the empty stack. *)
Fixpoint frameDepth (d : nat) (cs : list gg.call) : option nat :=
  match cs with
  | [] => Some d
  | gg.CPush :: cs' =>
      match d with O => frameDepth 1 cs' | S _ => None end
  | gg.CPop :: cs' =>
      match d with S d' => frameDepth d' cs' | O => None end
  | _ :: cs' => frameDepth d cs'
  end.

Definition countCalls (f : gg.call -> bool) (cs : list gg.call) : nat :=
  List.length (List.filter f cs).

Definition isFill (c : gg.call) : bool :=
  match c with gg.CFill => true | _ => false end.

Definition isPush (c : gg.call) : bool :=
  match c with gg.CPush => true | _ => false end.

(** The calls that set a colour, in order. *)
Definition paints (cs : list gg.call) : list gg.call :=
  List.filter (fun c => match c with
                        | gg.CSetColor _ | gg.CSetRGB255 _ _ _ => true
                        | _ => false
                        end) cs.

(** What a run shows apart from the geometry: the colours an image sets,
    the error, or the panic. *)
Definition colorsOf (r : run (option gg.Raster * option error))
    : outcome (option (list gg.call) * option error) :=
  match result r with
  | Done (img, err) => Done (option_map (fun i => paints (gg.drawn i)) img, err)
  | Panic msg => Panic msg
  end.

(** A quarter turn of the 3x3 grid of cells about its centre cell (1,1). *)
Definition turnCell (p : gg.Point) : gg.Point :=
  gg.Pt (2 - gg.Y p)%float (gg.X p).

(** A quarter turn of the template grid about its centre (2,2). *)
Definition turnGrid (p : Z * Z) : Z * Z := (4 - snd p, fst p).

(** ** The server (the [main] package: [handler]) *)

(** [strings.Split(s, sep)] for a one-character separator: the pieces of
    [s] between the separators, a string without separator being its own
    single piece. *)
Fixpoint strings_Split (s : string) (sep : ascii) : list string :=
  match s with
  | EmptyString => [EmptyString]
  | String c rest =>
      let pieces := strings_Split rest sep in
      if Ascii.eqb c sep then EmptyString :: pieces
      else match pieces with
           | piece :: others => String c piece :: others
           | [] => [String c EmptyString]
           end
  end.

(** [strings.HasSuffix]: [len(s) >= len(suffix)] and the tail of that length
    is the suffix. *)
Definition strings_HasSuffix (s suffix : string) : bool :=
  (String.length suffix <=? String.length s)%nat
  && String.eqb
       (substring (String.length s - String.length suffix)
                  (String.length suffix) s)
       suffix.

(** [strings.TrimSuffix]: [s] without the suffix when it has it, else [s]. *)
Definition strings_TrimSuffix (s suffix : string) : string :=
  if strings_HasSuffix s suffix
  then substring 0 (String.length s - String.length suffix) s
  else s.

(** [strconv.Itoa]. *)
Definition strconv_Itoa (n : Z) : string := NilZero.string_of_int (Z.to_int n).

Definition StatusBadRequest : Z := 400.

(** What the handler does to the response and to the log, call by call. *)
Inductive effect : Type :=
| EHttpError (body : string) (status : Z)          (* http.Error(w, body, status) *)
| ELogPrintln (text : string) (err : option error) (* log.Println(text [, err]) *)
| ELogPrintf (format : string) (arg : string)      (* log.Printf(format, arg) *)
| ESetHeader (key value : string)                  (* w.Header().Set(key, value) *)
| EWrite (body : list Byte.byte).                  (* w.Write(body) *)

Section Server.

Variable Sum512 : list Byte.byte -> array64.
Variable Source : Type.
Variable NewSource : Z -> Source.
Variable Int31n : Source -> Z -> Z * Source.

(** [png.Encode(buffer, img)]: the bytes that reached the buffer, and the
    error. *)
Variable png_Encode : gg.Raster -> list Byte.byte * option error.

(** The error of [w.Write]. *)
Variable Write : list Byte.byte -> option error.

(** [handler], on the path of the request URL: the effects in order, and
    whether the call ended or panicked. *)
Definition handler (path : string) : list effect * outcome unit :=
  let args := strings_Split path "/"%char in
  match args with
  | [] => ([], Panic "slice bounds out of range")
  | _ :: args =>

  if negb (len args =? 1)
  then ([EHttpError "" StatusBadRequest], Done tt)
  else

  match index args 0 with
  | Panic msg => ([], Panic msg)
  | Done item =>

  (* support jpg too? *)
  if negb (strings_HasSuffix item ".png")
  then ([EHttpError "" StatusBadRequest], Done tt)
  else

  let item := strings_TrimSuffix item ".png" in

  match Code Sum512 item with
  | Panic msg => ([], Panic msg)
  | Done code =>
  let size := 1024 in
  let settings := DefaultSettings in

  match result (Render Source NewSource Int31n code size settings) with
  | Panic msg => ([], Panic msg)
  | Done (img, Some err) =>
      ([ELogPrintln "unable to render image:" (Some err)], Done tt)
  | Done (img, None) =>

  let created := ELogPrintf "creating identicon for '%s'\n" item in

  match img with
  | None => ([created], Panic "invalid memory address or nil pointer dereference")
  | Some img =>
  let '(buffer, err) := png_Encode img in
  let encodeLog :=
    match err with
    | Some _ => [ELogPrintln "unable to encode image." None]
    | None => []
    end in
  let writeLog :=
    match Write buffer with
    | Some _ => [ELogPrintln "unable to write image." None]
    | None => []
    end in
  ([created] ++ encodeLog
   ++ [ ESetHeader "Content-Type" "image/png";
        ESetHeader "Content-Length" (strconv_Itoa (len buffer));
        EWrite buffer ]
   ++ writeLog, Done tt)
  end end end end end.

End Server.

(** A path has no slash. *)
Definition noSlash (s : string) : bool :=
  forallb (fun c => negb (Ascii.eqb c "/"%char)) (list_ascii_of_string s).

(** A digest function for running the server on concrete paths: every
    digest is 64 zero bytes. *)
Definition zeroDigest : array64 :=
  {| elems := List.repeat Byte.x00 64; elems_len := eq_refl |}.

(** Settings without colours. *)
Definition emptySettings : Settings :=
  {| TwoColor := true; Alpha := 255; TransparentBackground := true;
     ColorPalette := []; BackgroundColors := [] |}.

(** * Properties *)

(** ** Integer conversions and bit fields *)

Lemma int64_small z : - 2 ^ 63 <= z < 2 ^ 63 -> int64 z = z.
Proof.
  intros H. unfold int64.
  rewrite Z.mod_small by lia. lia.
Qed.

Lemma seed_mod code : seed code = code mod (2 ^ 31 - 1).
Proof.
  unfold seed, MaxInt32.
  change (2 ^ 31 - 1) with 2147483647.
  apply int64_small.
  pose proof (Z.mod_pos_bound code 2147483647 eq_refl). lia.
Qed.

Lemma bitfield_div code lo width :
  0 <= lo -> bitfield code lo width = (code / 2 ^ lo) mod 2 ^ Z.of_nat width.
Proof.
  revert lo. induction width as [|w IH]; intros lo Hlo.
  - simpl. now rewrite Z.mod_1_r.
  - cbn [bitfield]. rewrite IH by lia.
    rewrite Nat2Z.inj_succ, Z.pow_succ_r by lia.
    rewrite Z.rem_mul_r by lia.
    rewrite Z.pow_add_r, Z.pow_1_r by lia.
    rewrite <- Z.div_div by lia.
    f_equal.
    now apply Z.testbit_spec'.
Qed.

Lemma bitfield_range code lo width :
  0 <= lo -> 0 <= bitfield code lo width < 2 ^ Z.of_nat width.
Proof.
  intros Hlo. rewrite bitfield_div by assumption.
  apply Z.mod_pos_bound, Z.pow_pos_nonneg; lia.
Qed.

Lemma mask_field code lo width :
  0 <= lo -> (width <= 62)%nat ->
  int (Z.land (Z.shiftr code lo) (Z.ones (Z.of_nat width))) = bitfield code lo width.
Proof.
  intros Hlo Hw.
  rewrite Z.land_ones, Z.shiftr_div_pow2, <- bitfield_div by lia.
  apply int64_small.
  pose proof (bitfield_range code lo width Hlo).
  assert (2 ^ Z.of_nat width <= 2 ^ 62) by (apply Z.pow_le_mono_r; lia).
  lia.
Qed.

Lemma mask_flag code k :
  0 <= k -> (Z.land (Z.shiftr code k) 0x01 =? 1) = Z.testbit code k.
Proof.
  intros Hk. change 0x01 with (Z.ones 1).
  rewrite Z.land_ones, Z.shiftr_div_pow2 by lia.
  change (2 ^ 1) with 2.
  rewrite <- Z.testbit_spec' by assumption.
  now destruct (Z.testbit code k).
Qed.

Lemma middleTypeRaw_bits code : middleTypeRaw code = bitfield code 0 2.
Proof.
  unfold middleTypeRaw. rewrite <- (Z.shiftr_0_r code) at 1.
  apply (mask_field code 0 2); lia.
Qed.

Lemma cornerType_bits code : cornerType code = bitfield code 3 4.
Proof. apply (mask_field code 3 4); lia. Qed.

Lemma cornerTurn_bits code : cornerTurn code = bitfield code 8 2.
Proof. apply (mask_field code 8 2); lia. Qed.

Lemma sideType_bits code : sideType code = bitfield code 10 4.
Proof. apply (mask_field code 10 4); lia. Qed.

Lemma sideTurn_bits code : sideTurn code = bitfield code 15 2.
Proof. apply (mask_field code 15 2); lia. Qed.

Lemma middleType_resolved code :
  middleType code = Done (List.nth (Z.to_nat (bitfield code 0 2)) [0; 4; 8; 15] 0).
Proof.
  unfold middleType. rewrite middleTypeRaw_bits.
  pose proof (bitfield_range code 0 2 ltac:(lia)) as H.
  change (2 ^ Z.of_nat 2) with 4 in H.
  assert (bitfield code 0 2 = 0 \/ bitfield code 0 2 = 1 \/
          bitfield code 0 2 = 2 \/ bitfield code 0 2 = 3) as Hc by lia.
  destruct Hc as [-> | [-> | [-> | ->]]]; reflexivity.
Qed.

(** C3: every field is the stated run of bits of the code, read by mask
    and shift; the middle tile's template is the entry of [0,4,8,15] that
    bits 0-1 select, hence always one of 0, 4, 8 and 15. *)
Theorem Render_bit_fields (code : Z) :
  middleTypeRaw code = bitfield code 0 2 /\
  middleInvert code = Z.testbit code 2 /\
  cornerType code = bitfield code 3 4 /\
  cornerInvert code = Z.testbit code 7 /\
  cornerTurn code = bitfield code 8 2 /\
  sideType code = bitfield code 10 4 /\
  sideInvert code = Z.testbit code 14 /\
  sideTurn code = bitfield code 15 2 /\
  swapCross code = Z.testbit code 47 /\
  middleType code
    = Done (List.nth (Z.to_nat (middleTypeRaw code)) [0; 4; 8; 15] 0) /\
  exists t, middleType code = Done t /\ In t [0; 4; 8; 15].
Proof.
  repeat split;
    try (apply mask_flag; lia);
    auto using middleTypeRaw_bits, cornerType_bits, cornerTurn_bits,
               sideType_bits, sideTurn_bits.
  - rewrite middleTypeRaw_bits. apply middleType_resolved.
  - rewrite middleType_resolved. eexists; split; [reflexivity|].
    pose proof (bitfield_range code 0 2 ltac:(lia)) as H.
    change (2 ^ Z.of_nat 2) with 4 in H.
    assert (bitfield code 0 2 = 0 \/ bitfield code 0 2 = 1 \/
            bitfield code 0 2 = 2 \/ bitfield code 0 2 = 3) as Hc by lia.
    destruct Hc as [-> | [-> | [-> | ->]]]; simpl; auto.
Qed.

(** ** [Code] *)

Lemma lor_block a b k :
  0 <= k -> 0 <= a < 2 ^ k -> (2 ^ k | b) -> Z.lor a b = a + b.
Proof.
  intros Hk Ha [c ->].
  rewrite <- Z.lxor_lor, <- Z.add_nocarry_lxor; trivial;
    apply Z.bits_inj'; intros i Hi;
    rewrite Z.land_spec, Z.bits_0;
    destruct (Z.lt_ge_cases i k) as [Hik|Hik].
  all: try (rewrite <- Z.shiftl_mul_pow2, Z.shiftl_spec_low by lia;
            apply andb_false_r).
  all: rewrite <- (Z.mod_small a (2 ^ k)), Z.mod_pow2_bits_high by lia;
       reflexivity.
Qed.

Lemma byte_range (b : Byte.byte) : 0 <= Z.of_N (Byte.to_N b) < 256.
Proof. pose proof (Byte.to_N_bounded b). lia. Qed.

Lemma BigEndian_Uint64_value b0 b1 b2 b3 b4 b5 b6 b7 rest :
  binary.BigEndian_Uint64 (b0 :: b1 :: b2 :: b3 :: b4 :: b5 :: b6 :: b7 :: rest)
  = Done (big_endian [b0; b1; b2; b3; b4; b5; b6; b7]).
Proof.
  unfold binary.BigEndian_Uint64, big_endian. cbn [fold_left]. f_equal.
  pose proof (byte_range b0). pose proof (byte_range b1).
  pose proof (byte_range b2). pose proof (byte_range b3).
  pose proof (byte_range b4). pose proof (byte_range b5).
  pose proof (byte_range b6). pose proof (byte_range b7).
  rewrite !Z.shiftl_mul_pow2 by lia.
  repeat match goal with
  | |- context [Z.lor ?a ?b] =>
      lazymatch b with
      | context [Z.lor _ _] => fail
      | _ => idtac
      end;
      let k := lazymatch a with
               | _ * 2 ^ ?n => constr:(n + 8)
               | _ => constr:(8)
               end in
      rewrite (lor_block a b k)
  end.
  1: lia.
  all: try lia.
  all: repeat apply Z.divide_add_r;
    apply Z.divide_mul_r, Z.mod_divide; now vm_compute.
Qed.

Lemma big_endian_range (l : list Byte.byte) :
  0 <= big_endian l < 2 ^ (8 * Z.of_nat (List.length l)).
Proof.
  unfold big_endian.
  assert (forall acc n, 0 <= acc < 2 ^ (8 * n) -> 0 <= n ->
            0 <= fold_left (fun acc b => acc * 256 + Z.of_N (Byte.to_N b)) l acc
              < 2 ^ (8 * (n + Z.of_nat (List.length l)))) as H.
  { induction l as [|b l IH]; intros acc n Hacc Hn.
    - simpl. now rewrite Z.add_0_r.
    - cbn [fold_left List.length]. rewrite Nat2Z.inj_succ.
      replace (n + Z.succ (Z.of_nat (List.length l)))
        with ((n + 1) + Z.of_nat (List.length l)) by lia.
      apply IH; [|lia].
      replace (8 * (n + 1)) with (8 * n + 8) by lia.
      rewrite Z.pow_add_r by lia. change (2 ^ 8) with 256.
      pose proof (byte_range b). nia. }
  apply (H 0 0); simpl; lia.
Qed.

Section FingerprintProperties.

Variable Sum512 : list Byte.byte -> array64.

Lemma Code_value (str : string) :
  Code Sum512 str
    = Done (big_endian (final 8 (elems (Sum512 (list_byte_of_string str))))) /\
  0 <= big_endian (final 8 (elems (Sum512 (list_byte_of_string str)))) < 2 ^ 64 /\
  List.length (final 8 (elems (Sum512 (list_byte_of_string str)))) = 8%nat.
Proof.
  unfold Code, final.
  destruct (Sum512 (list_byte_of_string str)) as [l Hl]. cbn [elems].
  rewrite Hl. change (64 - 8)%nat with 56%nat.
  assert (List.length (skipn 56 l) = 8%nat) as H8
    by (rewrite length_skipn; lia).
  split; [|split; [|exact H8]].
  - destruct (skipn 56 l) as [|b0 [|b1 [|b2 [|b3 [|b4 [|b5 [|b6 [|b7 r]]]]]]]];
      try discriminate.
    destruct r; [|discriminate].
    apply BigEndian_Uint64_value.
  - pose proof (big_endian_range (skipn 56 l)) as H.
    rewrite H8 in H. exact H.
Qed.

(** C2: [Code] never panics and has no error result; its value is the
    last 8 bytes of the 64-byte digest read as a big-endian unsigned
    integer, which fits 64 bits.  The empty string is no special case. *)
Theorem Code_final_bytes (str : string) :
  Code Sum512 str
    = Done (big_endian (final 8 (elems (Sum512 (list_byte_of_string str))))) /\
  0 <= big_endian (final 8 (elems (Sum512 (list_byte_of_string str)))) < 2 ^ 64 /\
  List.length (final 8 (elems (Sum512 (list_byte_of_string str)))) = 8%nat.
Proof. apply Code_value. Qed.

End FingerprintProperties.

(** ** Runs *)

Lemma run_eta {A} (r : run A) : mkRun (draws r) (result r) = r.
Proof. now destruct r. Qed.

Lemma bind_lift_Done {A B} (a : A) (k : A -> run B) :
  bind (lift (Done a)) k = k a.
Proof. unfold bind, lift. cbn. apply run_eta. Qed.

Lemma bind_lift_Panic {A B} msg (k : A -> run B) :
  bind (lift (Panic msg)) k = mkRun [] (Panic msg).
Proof. reflexivity. Qed.

Lemma bind_mkRun_Done {A B} ds (a : A) (k : A -> run B) :
  bind (mkRun ds (Done a)) k = mkRun (ds ++ draws (k a)) (result (k a)).
Proof. reflexivity. Qed.

(** ** [drawPatch] *)

Lemma invoke_calls dc c : gg.calls (gg.invoke dc c) = gg.calls dc ++ [c].
Proof. reflexivity. Qed.

Lemma trace_path patchSize path image :
  fold_left
    (fun image p =>
       gg.LineTo image (gg.X p / 4 * patchSize)%float (gg.Y p / 4 * patchSize)%float)
    path image
  = {| gg.width := gg.width image; gg.height := gg.height image;
       gg.calls := gg.calls image
         ++ List.map (fun p => gg.CLineTo (gg.X p / 4 * patchSize)%float
                                          (gg.Y p / 4 * patchSize)%float) path |}.
Proof.
  revert image. induction path as [|p path IH]; intros image.
  - simpl. rewrite app_nil_r. now destruct image.
  - cbn [fold_left List.map]. rewrite IH. cbn.
    now rewrite <- app_assoc.
Qed.

Lemma index_nth {A} (l : list A) (i : Z) (d : A) :
  0 <= i < len l -> index l i = Done (List.nth (Z.to_nat i) l d).
Proof.
  intros H. unfold index, len in *.
  replace ((i <? 0) || (Z.of_nat (List.length l) <=? i)) with false
    by (symmetry; apply orb_false_iff; split; [apply Z.ltb_ge|apply Z.leb_gt]; lia).
  destruct (nth_error l (Z.to_nat i)) as [a|] eqn:E.
  - now rewrite (nth_error_nth _ _ d E).
  - apply nth_error_None in E. lia.
Qed.

Lemma index_Done {A} (l : list A) (i : Z) (a : A) :
  index l i = Done a -> 0 <= i < len l /\ nth_error l (Z.to_nat i) = Some a.
Proof.
  unfold index. destruct ((i <? 0) || (len l <=? i)) eqn:E; [discriminate|].
  apply orb_false_iff in E. destruct E as [E1 E2].
  apply Z.ltb_ge in E1. apply Z.leb_gt in E2.
  destruct (nth_error l (Z.to_nat i)); [|discriminate].
  intros [= ->]. auto.
Qed.

Lemma half_pen : (float64 1 / 2)%float = 0.5%float.
Proof. vm_compute. reflexivity. Qed.

Lemma drawPatch_trace pos turn invert type_ image patchSize c :
  0 <= type_ < 16 ->
  drawPatch pos turn invert type_ image patchSize c 1
  = Done {| gg.width := gg.width image; gg.height := gg.height image;
            gg.calls := gg.calls image
              ++ ([ gg.CPush;
                    gg.CTranslate (gg.X pos * patchSize + 0.5)%float
                                  (gg.Y pos * patchSize + 0.5)%float;
                    gg.CRotateAbout (float64 (Z.rem turn 4) * Pi / 2)%float
                                    (patchSize / 2)%float (patchSize / 2)%float ]
                  ++ templateCalls patchSize type_)
              ++ [ gg.CClosePath ]
              ++ (if invert then boundaryCalls patchSize else [])
              ++ [ gg.CSetColor c; gg.CFill; gg.CPop ] |}.
Proof.
  intros Ht. unfold drawPatch.
  rewrite (index_nth pathSet type_ []) by exact Ht.
  cbn [obind]. rewrite trace_path, half_pen.
  unfold templateCalls, boundaryCalls.
  generalize (List.nth (Z.to_nat type_) pathSet []). intros path.
  unfold gg.Pop, gg.Fill, gg.SetColor, gg.ClosePath, gg.LineTo, gg.MoveTo,
    gg.RotateAbout, gg.Translate, gg.Push, gg.invoke.
  destruct invert; cbn [gg.calls gg.width gg.height]; f_equal; f_equal;
    repeat (rewrite <- app_assoc; cbn [app]); reflexivity.
Qed.

Lemma drawPatch_calls pos turn invert type_ image patchSize c :
  0 <= type_ < 16 -> 0 <= turn ->
  drawPatch pos turn invert type_ image patchSize c 1
  = Done {| gg.width := gg.width image; gg.height := gg.height image;
            gg.calls := gg.calls image
              ++ tileCalls patchSize pos turn invert type_ c |}.
Proof.
  intros Ht Hturn. rewrite drawPatch_trace by exact Ht.
  rewrite Z.rem_mod_nonneg by lia.
  unfold tileCalls. repeat (rewrite <- app_assoc; cbn [app]). reflexivity.
Qed.

(** ** [hexConvert] yields bytes *)

Lemma fromHexChar_range c v : hex.fromHexChar c = Some v -> 0 <= v < 16.
Proof.
  unfold hex.fromHexChar.
  repeat match goal with
  | |- context [if ?b then _ else _] => destruct b eqn:?
  end; intros [= <-]; lia.
Qed.

Lemma hex_byte_range a b : 0 <= a < 16 -> 0 <= b < 16 ->
  0 <= Z.lor (Z.shiftl a 4) b < 256.
Proof.
  intros Ha Hb. rewrite Z.lor_comm, Z.shiftl_mul_pow2 by lia.
  rewrite (lor_block b (a * 2 ^ 4) 4); try lia.
  now exists a.
Qed.

Lemma Decode_bytes s : Forall (fun v => 0 <= v < 256) (fst (hex.Decode s)).
Proof.
  assert (forall n s, (String.length s <= n)%nat ->
            Forall (fun v => 0 <= v < 256) (fst (hex.Decode s))) as H.
  { clear s. induction n as [|n IH]; intros s Hs.
    - destruct s; [constructor | simpl in Hs; lia].
    - destruct s as [|p [|q rest]]; cbn [hex.Decode].
      + constructor.
      + destruct (hex.fromHexChar p); constructor.
      + destruct (hex.fromHexChar p) as [a|] eqn:Ea; [|constructor].
        destruct (hex.fromHexChar q) as [b|] eqn:Eb; [|constructor].
        specialize (IH rest ltac:(simpl in Hs; lia)).
        destruct (hex.Decode rest) as [bs err]. cbn [fst] in *.
        constructor; [|assumption].
        apply hex_byte_range; eauto using fromHexChar_range. }
  eapply H. reflexivity.
Qed.

Lemma hexConvert_bytes s r g b err :
  hexConvert s = (r, g, b, err) ->
  0 <= r < 256 /\ 0 <= g < 256 /\ 0 <= b < 256.
Proof.
  unfold hexConvert, hex.DecodeString.
  pose proof (Decode_bytes (strings.TrimPrefix1 s "#"%char)) as HF.
  destruct (hex.Decode (strings.TrimPrefix1 s "#"%char)) as [bs e].
  cbn [fst] in HF.
  destruct e; [intros [= <- <- <- _]; lia|].
  destruct (negb (len bs =? 3)) eqn:E; [intros [= <- <- <- _]; lia|].
  apply negb_false_iff, Z.eqb_eq in E. unfold len in E.
  destruct bs as [|x [|y [|z [|? ?]]]]; cbn in E; try lia.
  cbn [List.nth]. intros [= <- <- <- _].
  inversion HF as [|? ? Hx HF1]; subst.
  inversion HF1 as [|? ? Hy HF2]; subst.
  inversion HF2 as [|? ? Hz _]; subst. auto.
Qed.

(** ** [hexConvert] accepts exactly the well-formed colour strings *)

Lemma string_pair_ind (P : string -> Prop) :
  P EmptyString ->
  (forall p, P (String p EmptyString)) ->
  (forall p q rest, P rest -> P (String p (String q rest))) ->
  forall s, P s.
Proof.
  intros H0 H1 H2.
  assert (forall s, P s /\ forall c, P (String c s)) as H.
  { induction s as [|c s [IH1 IH2]].
    - split; auto.
    - split; [apply IH2|]. intros c'. apply H2, IH1. }
  intros s. apply H.
Qed.

Lemma isHexDigit_fromHexChar c :
  isHexDigit c = match hex.fromHexChar c with Some _ => true | None => false end.
Proof. destruct c as [[] [] [] [] [] [] [] []]; reflexivity. Qed.

Lemma Decode_ok s :
  snd (hex.Decode s) = None <->
  forallb isHexDigit (list_ascii_of_string s) = true /\
  Nat.even (String.length s) = true.
Proof.
  induction s as [|p|p q rest IH] using string_pair_ind.
  - cbn. tauto.
  - cbn. rewrite isHexDigit_fromHexChar.
    destruct (hex.fromHexChar p); cbn; split; try discriminate;
      intros [_ H]; discriminate.
  - cbn [hex.Decode list_ascii_of_string forallb String.length Nat.even].
    rewrite !isHexDigit_fromHexChar.
    destruct (hex.fromHexChar p); [|cbn; split; [discriminate|intros [H _]; discriminate]].
    destruct (hex.fromHexChar q); [|cbn; split; [discriminate|intros [H _]; discriminate]].
    destruct (hex.Decode rest) as [bs err]. cbn [fst snd andb] in *.
    exact IH.
Qed.

Lemma Decode_length s :
  snd (hex.Decode s) = None ->
  String.length s = (2 * List.length (fst (hex.Decode s)))%nat.
Proof.
  induction s as [|p|p q rest IH] using string_pair_ind.
  - reflexivity.
  - cbn. destruct (hex.fromHexChar p); discriminate.
  - cbn [hex.Decode String.length].
    destruct (hex.fromHexChar p); [|discriminate].
    destruct (hex.fromHexChar q); [|discriminate].
    destruct (hex.Decode rest) as [bs err]. cbn [fst snd List.length] in *.
    intros H. specialize (IH H). lia.
Qed.

Lemma sixHexDigits_hash rest : sixHexDigits (String "#"%char rest) = false.
Proof.
  unfold sixHexDigits. cbn [list_ascii_of_string forallb].
  change (isHexDigit "#"%char) with false. cbn [andb]. apply andb_false_r.
Qed.

Lemma validColor_trim s :
  validColor s = sixHexDigits (strings.TrimPrefix1 s "#"%char).
Proof.
  unfold validColor, strings.TrimPrefix1.
  destruct s as [|c rest]; [reflexivity|].
  destruct (Ascii.eqb c "#"%char) eqn:E; cbn [andb].
  - apply Ascii.eqb_eq in E. subst c. now rewrite sixHexDigits_hash.
  - apply orb_false_r.
Qed.

Lemma hexConvert_valid s :
  snd (hexConvert s) = None <-> validColor s = true.
Proof.
  rewrite validColor_trim. unfold hexConvert, hex.DecodeString, sixHexDigits.
  pose proof (Decode_ok (strings.TrimPrefix1 s "#"%char)) as H.
  pose proof (Decode_length (strings.TrimPrefix1 s "#"%char)) as HL.
  destruct (hex.Decode (strings.TrimPrefix1 s "#"%char)) as [bs err].
  cbn [fst snd] in H, HL.
  rewrite andb_true_iff, Nat.eqb_eq.
  destruct err as [e|].
  - cbn [snd]. split; [discriminate|].
    intros [H1 H2]. destruct H as [_ H].
    rewrite H1 in H. discriminate H. now split.
  - specialize (HL eq_refl). destruct H as [H _]. destruct (H eq_refl) as [Hd _].
    unfold len. destruct (negb (Z.of_nat (List.length bs) =? 3)) eqn:E; cbn [snd].
    + apply negb_true_iff, Z.eqb_neq in E. split; [discriminate|]. lia.
    + apply negb_false_iff, Z.eqb_eq in E. split; [|reflexivity]. intros _.
      split; [lia|exact Hd].
Qed.

(** ** The scale of a tile, for sizes below 2^17 *)

Lemma allFrom_spec k f : forall n,
  allFrom k n f = true -> forall i, n <= i < n + Z.of_nat k -> f i = true.
Proof.
  induction k as [|k IH]; intros n H i Hi; [lia|].
  cbn [allFrom] in H. apply andb_true_iff in H. destruct H as [H0 H1].
  destruct (Z.eq_dec i n) as [->|Hne]; [exact H0|].
  apply (IH (n + 1) H1). lia.
Qed.

Lemma scalesAgree_sizes : allFrom (Z.to_nat 131072) 0 scalesAgree = true.
Proof. vm_compute. reflexivity. Qed.

Lemma scale_quarter totalSize x :
  0 <= totalSize < 131072 -> In x [0; 1; 2; 3; 4]%float ->
  (x / 4 * (float64 totalSize / 3) = x * (float64 totalSize / 3 / 4))%float.
Proof.
  intros Ht Hx.
  pose proof (allFrom_spec _ _ _ scalesAgree_sizes totalSize ltac:(lia)) as H.
  unfold scalesAgree in H. rewrite !andb_true_iff, forallb_forall in H.
  apply FloatAxioms.Leibniz.eqb_spec. now apply H.
Qed.

Lemma scale_corners totalSize :
  0 <= totalSize < 131072 ->
  (0 / 4 * (float64 totalSize / 3) = 0 /\
   4 / 4 * (float64 totalSize / 3) = float64 totalSize / 3)%float.
Proof.
  intros Ht.
  pose proof (allFrom_spec _ _ _ scalesAgree_sizes totalSize ltac:(lia)) as H.
  unfold scalesAgree in H. rewrite !andb_true_iff in H.
  destruct H as [[_ H0] H4].
  split; now apply FloatAxioms.Leibniz.eqb_spec.
Qed.

(** ** The fill rule and inversion *)

Ltac split_tests :=
  repeat match goal with
  | |- context [?a <=? ?b] => destruct (Z.leb_spec a b); try (exfalso; lia)
  | |- context [?a <? ?b] => destruct (Z.ltb_spec a b); try (exfalso; lia)
  end.

Lemma boundary_winding x y d :
  0 < d -> 0 <= x < 4 * d -> 0 <= y < 4 * d ->
  winding x y d [boundaryGrid] = -1.
Proof.
  intros Hd Hx Hy.
  cbv [winding boundaryGrid edges edgesFrom crossing List.map List.concat
       fold_right app].
  split_tests; cbn [andb]; lia.
Qed.

Lemma template_winding t x y d :
  0 < d -> 0 <= x < 4 * d -> 0 <= y < 4 * d ->
  In t pathSetGrid ->
  winding x y d [t] = 0 \/ winding x y d [t] = 1.
Proof.
  intros Hd Hx Hy Ht.
  unfold pathSetGrid in Ht. cbn [In] in Ht.
  repeat (destruct Ht as [E | Ht]; [subst t|]); try contradiction.
  all: cbv [winding edges edgesFrom crossing List.map List.concat
            fold_right app].
  all: split_tests; cbn [andb]; lia.
Qed.

Lemma pathSet_grid :
  pathSet
  = List.map (List.map (fun p => gg.Pt (float64 (fst p)) (float64 (snd p))))
      pathSetGrid.
Proof. vm_compute. reflexivity. Qed.

Lemma winding_app x y d (ps qs : list (list (Z * Z))) :
  winding x y d (ps ++ qs) = winding x y d ps + winding x y d qs.
Proof.
  unfold winding. rewrite List.map_app, List.concat_app, List.map_app.
  generalize (List.map (crossing x y d) (List.concat (List.map edges ps))).
  intros l. induction l as [|a l IH]; cbn [app fold_right]; lia.
Qed.

Lemma nth_pathSetGrid (t : Z) :
  0 <= t < 16 -> In (List.nth (Z.to_nat t) pathSetGrid []) pathSetGrid.
Proof.
  intros H. apply nth_In. unfold pathSetGrid. cbn [List.length]. lia.
Qed.

(** C8: for every template, [drawPatch] with [invert] makes the calls it
    makes without, plus one closed sub-path round the tile boundary, added
    after the template is closed and before the colour is set and the path
    filled.  Under the non-zero winding rule the boundary winds once, against
    every template of the catalogue, so at each point of the tile the
    inverted path is filled exactly when the plain one is not: the two
    filled sets are disjoint and cover the tile.  The empty template fills
    nothing plain and the whole tile inverted.  Templates and boundary are
    taken on the grid of 4 units: [pathSet] is that grid in [float64], and
    for sizes below 2^17 the corners of the added sub-path are the grid
    corners at the scale of the template. *)
Theorem drawPatch_invert_complement (t : Z) :
  0 <= t < 16 ->
  (forall pos turn image patchSize c,
   let traced :=
     [ gg.CPush;
       gg.CTranslate (gg.X pos * patchSize + 0.5)%float
                     (gg.Y pos * patchSize + 0.5)%float;
       gg.CRotateAbout (float64 (Z.rem turn 4) * Pi / 2)%float
                       (patchSize / 2)%float (patchSize / 2)%float ]
     ++ List.map (fun p => gg.CLineTo (gg.X p / 4 * patchSize)%float
                                      (gg.Y p / 4 * patchSize)%float)
          (List.nth (Z.to_nat t) pathSet []) in
     drawPatch pos turn false t image patchSize c 1
     = Done {| gg.width := gg.width image; gg.height := gg.height image;
               gg.calls := gg.calls image ++ traced ++ [gg.CClosePath]
                   ++ [gg.CSetColor c; gg.CFill; gg.CPop] |} /\
     drawPatch pos turn true t image patchSize c 1
     = Done {| gg.width := gg.width image; gg.height := gg.height image;
               gg.calls := gg.calls image ++ traced ++ [gg.CClosePath]
                   ++ [ gg.CMoveTo 0 0; gg.CLineTo 0 patchSize;
                        gg.CLineTo patchSize patchSize;
                        gg.CLineTo patchSize 0; gg.CClosePath ]
                   ++ [gg.CSetColor c; gg.CFill; gg.CPop] |}) /\
  List.nth (Z.to_nat t) pathSet []
    = List.map (fun p => gg.Pt (float64 (fst p)) (float64 (snd p)))
        (List.nth (Z.to_nat t) pathSetGrid []) /\
  (forall x y d, 0 < d -> 0 <= x < 4 * d -> 0 <= y < 4 * d ->
     let template := List.nth (Z.to_nat t) pathSetGrid [] in
     filled x y d [template; boundaryGrid] = negb (filled x y d [template]) /\
     (t = 15 -> filled x y d [template] = false /\
                filled x y d [template; boundaryGrid] = true)) /\
  (forall totalSize, 0 <= totalSize < 131072 ->
     let patchSize := (float64 totalSize / 3)%float in
     List.map (fun p => ((float64 (fst p) / 4 * patchSize)%float,
                         (float64 (snd p) / 4 * patchSize)%float)) boundaryGrid
     = [ (0, 0); (0, patchSize); (patchSize, patchSize); (patchSize, 0) ]%float).
Proof.
  intros Ht. split; [|split; [|split]].
  4: { intros totalSize Hs patchSize. subst patchSize.
       destruct (scale_corners totalSize Hs) as [H0 H4].
       unfold boundaryGrid. cbn [List.map fst snd].
       change (float64 0) with 0%float. change (float64 4) with 4%float.
       rewrite H0, H4. reflexivity. }
  - intros pos turn image patchSize c traced. subst traced. split.
    + rewrite drawPatch_trace by exact Ht. reflexivity.
    + rewrite drawPatch_trace by exact Ht. reflexivity.
  - rewrite pathSet_grid.
    rewrite <- (List.map_nth (List.map _)). reflexivity.
  - intros x y d Hd Hx Hy template.
    assert (filled x y d [template; boundaryGrid] = negb (filled x y d [template]))
      as Hc.
    { unfold filled.
      change [template; boundaryGrid] with ([template] ++ [boundaryGrid]).
      rewrite winding_app, boundary_winding by assumption.
      destruct (template_winding template x y d Hd Hx Hy
                  (nth_pathSetGrid t Ht)) as [-> | ->]; reflexivity. }
    split; [exact Hc|].
    intros ->. rewrite Hc. subst template. split; reflexivity.
Qed.

(** ** Flipping bit 47 *)

Lemma flipSwapCross_testbit code k :
  0 <= k -> Z.testbit (flipSwapCross code) k = xorb (Z.testbit code k) (k =? 47).
Proof.
  intros Hk. unfold flipSwapCross.
  rewrite Z.lxor_spec, Z.pow2_bits_eqb by lia.
  now rewrite (Z.eqb_sym 47 k).
Qed.

Lemma flipSwapCross_bitfield code lo width :
  0 <= lo -> lo + Z.of_nat width <= 47 ->
  bitfield (flipSwapCross code) lo width = bitfield code lo width.
Proof.
  revert lo. induction width as [|w IH]; intros lo Hlo Hhi; [reflexivity|].
  cbn [bitfield]. rewrite IH by lia.
  rewrite flipSwapCross_testbit by lia.
  replace (lo =? 47) with false by (symmetry; apply Z.eqb_neq; lia).
  now rewrite xorb_false_r.
Qed.

Lemma flipSwapCross_value code :
  flipSwapCross code = if Z.testbit code 47 then code - 2 ^ 47 else code + 2 ^ 47.
Proof.
  assert (forall c, Z.testbit c 47 = false -> Z.lxor c (2 ^ 47) = c + 2 ^ 47) as H.
  { intros c Hc. rewrite Z.add_nocarry_lxor; [reflexivity|].
    apply Z.bits_inj'. intros i Hi.
    rewrite Z.land_spec, Z.bits_0, Z.pow2_bits_eqb by lia.
    destruct (Z.eqb_spec 47 i) as [<-|]; [now rewrite Hc | apply andb_false_r]. }
  unfold flipSwapCross. destruct (Z.testbit code 47) eqn:E.
  - assert (Z.testbit (Z.lxor code (2 ^ 47)) 47 = false) as E'.
    { rewrite Z.lxor_spec, E, Z.pow2_bits_eqb by lia. reflexivity. }
    apply H in E'. rewrite Z.lxor_assoc, Z.lxor_nilpotent, Z.lxor_0_r in E'.
    lia.
  - now apply H.
Qed.

Lemma flipSwapCross_seed code :
  seed (flipSwapCross code) <> seed code /\
  ((seed (flipSwapCross code) - seed code) mod (2 ^ 31 - 1) = 2 ^ 16 \/
   (seed code - seed (flipSwapCross code)) mod (2 ^ 31 - 1) = 2 ^ 16).
Proof.
  rewrite !seed_mod, flipSwapCross_value.
  assert (forall a b, (a mod (2 ^ 31 - 1) - b mod (2 ^ 31 - 1)) mod (2 ^ 31 - 1)
                      = (a - b) mod (2 ^ 31 - 1)) as Hm
    by (intros; now rewrite <- Zminus_mod).
  assert (2 ^ 47 mod (2 ^ 31 - 1) = 2 ^ 16) as Hp by reflexivity.
  destruct (Z.testbit code 47).
  - assert ((code mod (2 ^ 31 - 1) - (code - 2 ^ 47) mod (2 ^ 31 - 1))
              mod (2 ^ 31 - 1) = 2 ^ 16) as H.
    { rewrite Hm. replace (code - (code - 2 ^ 47)) with (2 ^ 47) by lia. exact Hp. }
    split; [|now right].
    intros E. rewrite E, Z.sub_diag in H. discriminate H.
  - assert (((code + 2 ^ 47) mod (2 ^ 31 - 1) - code mod (2 ^ 31 - 1))
              mod (2 ^ 31 - 1) = 2 ^ 16) as H.
    { rewrite Hm. replace (code + 2 ^ 47 - code) with (2 ^ 47) by lia. exact Hp. }
    split; [|now left].
    intros E. rewrite E, Z.sub_diag in H. discriminate H.
Qed.

Lemma flipSwapCross_fields code :
  middleTypeRaw (flipSwapCross code) = middleTypeRaw code /\
  middleInvert (flipSwapCross code) = middleInvert code /\
  cornerType (flipSwapCross code) = cornerType code /\
  cornerInvert (flipSwapCross code) = cornerInvert code /\
  cornerTurn (flipSwapCross code) = cornerTurn code /\
  sideType (flipSwapCross code) = sideType code /\
  sideInvert (flipSwapCross code) = sideInvert code /\
  sideTurn (flipSwapCross code) = sideTurn code /\
  swapCross (flipSwapCross code) = negb (swapCross code).
Proof.
  rewrite !middleTypeRaw_bits, !cornerType_bits, !cornerTurn_bits,
    !sideType_bits, !sideTurn_bits.
  unfold middleInvert, cornerInvert, sideInvert, swapCross.
  rewrite !mask_flag, !flipSwapCross_testbit by lia.
  rewrite !flipSwapCross_bitfield by (cbn; lia).
  cbn [Z.eqb Pos.eqb]. rewrite !xorb_false_r, xorb_true_r.
  repeat split; reflexivity.
Qed.

(** ** Shapes without colours *)

Lemma blankColors_app cs1 cs2 :
  blankColors (cs1 ++ cs2) = blankColors cs1 ++ blankColors cs2.
Proof. apply List.map_app. Qed.

Lemma blankColors_tile patchSize pos turn invert t c :
  blankColors (tileCalls patchSize pos turn invert t c)
  = blankColors (tileCalls patchSize pos turn invert t noColor).
Proof.
  unfold tileCalls, blankColors. rewrite !List.map_app. reflexivity.
Qed.

Lemma blankColors_nineTiles code totalSize mt c1 c2 c3 :
  blankColors (nineTiles code totalSize mt c1 c2 c3)
  = blankColors (nineTiles code totalSize mt noColor noColor noColor).
Proof.
  unfold nineTiles. rewrite !blankColors_app.
  rewrite (blankColors_tile _ _ _ _ _ c1).
  rewrite !(blankColors_tile _ _ _ _ _ c2).
  rewrite !(blankColors_tile _ _ _ _ _ c3).
  reflexivity.
Qed.

(** ** [Render], outcome by outcome *)

Lemma field_ranges code :
  0 <= cornerType code < 16 /\ 0 <= sideType code < 16 /\
  0 <= cornerTurn code /\ 0 <= sideTurn code.
Proof.
  rewrite cornerType_bits, sideType_bits, cornerTurn_bits, sideTurn_bits.
  pose proof (bitfield_range code 3 4 ltac:(lia)).
  pose proof (bitfield_range code 10 4 ltac:(lia)).
  pose proof (bitfield_range code 8 2 ltac:(lia)).
  pose proof (bitfield_range code 15 2 ltac:(lia)).
  change (2 ^ Z.of_nat 4) with 16 in *. lia.
Qed.

Lemma middleTemplate_range code :
  middleType code
    = Done (List.nth (Z.to_nat (middleTypeRaw code)) middlePatchSet 0) /\
  0 <= List.nth (Z.to_nat (middleTypeRaw code)) middlePatchSet 0 < 16.
Proof.
  rewrite middleTypeRaw_bits. split; [apply middleType_resolved|].
  pose proof (bitfield_range code 0 2 ltac:(lia)) as H.
  change (2 ^ Z.of_nat 2) with 4 in H.
  assert (bitfield code 0 2 = 0 \/ bitfield code 0 2 = 1 \/
          bitfield code 0 2 = 2 \/ bitfield code 0 2 = 3) as Hc by lia.
  destruct Hc as [-> | [-> | [-> | ->]]];
    (vm_compute; split; [discriminate|reflexivity]).
Qed.

Lemma drawTiles_calls code mt image patchSize middle fore other :
  0 <= mt < 16 ->
  drawTiles code mt image patchSize middle fore other 1
  = mkRun [] (Done (Some {| gg.side_w := gg.width image;
                            gg.side_h := gg.height image;
                            gg.drawn := gg.calls image ++
                              (tileCalls patchSize (gg.Pt 1 1) 0 (middleInvert code) mt middle
   ++ tileCalls patchSize (gg.Pt 1 0) (sideTurn code + 1 + 0) (sideInvert code) (sideType code) fore
   ++ tileCalls patchSize (gg.Pt 2 1) (sideTurn code + 1 + 1) (sideInvert code) (sideType code) fore
   ++ tileCalls patchSize (gg.Pt 1 2) (sideTurn code + 1 + 2) (sideInvert code) (sideType code) fore
   ++ tileCalls patchSize (gg.Pt 0 1) (sideTurn code + 1 + 3) (sideInvert code) (sideType code) fore
   ++ tileCalls patchSize (gg.Pt 0 0) (cornerTurn code + 1 + 0) (cornerInvert code) (cornerType code) other
   ++ tileCalls patchSize (gg.Pt 2 0) (cornerTurn code + 1 + 1) (cornerInvert code) (cornerType code) other
   ++ tileCalls patchSize (gg.Pt 2 2) (cornerTurn code + 1 + 2) (cornerInvert code) (cornerType code) other
   ++ tileCalls patchSize (gg.Pt 0 2) (cornerTurn code + 1 + 3) (cornerInvert code) (cornerType code) other)
                         |}, None)).
Proof.
  intros Hmt.
  destruct (field_ranges code) as (Hct & Hst & Hctn & Hstn).
  unfold drawTiles.
  rewrite drawPatch_calls, bind_lift_Done by lia.
  cbn [forRange].
  repeat (rewrite drawPatch_calls by lia; cbn [obind gg.width gg.height gg.calls]).
  rewrite bind_lift_Done.
  repeat (rewrite drawPatch_calls by lia; cbn [obind gg.width gg.height gg.calls]).
  rewrite bind_lift_Done.
  unfold ret, gg.Image. cbn [gg.width gg.height gg.calls].
  repeat rewrite <- app_assoc. reflexivity.
Qed.

Lemma Done_image_inj {E : Type} (img' img : gg.Raster) (e' e : E) :
  Done (Some img', e') = Done (Some img, e) -> img' = img.
Proof. now intros [= -> _]. Qed.

Lemma same_error {I E : Type} ds1 ds2 (i1 i2 img1 img2 : I) (e err1 err2 : E) :
  result (mkRun ds1 (Done (i1, e))) = Done (img1, err1) ->
  result (mkRun ds2 (Done (i2, e))) = Done (img2, err2) ->
  err1 = err2.
Proof. cbn. congruence. Qed.

Lemma index_map_nth {A B} (f : A -> B) (l : list A) (i : Z) (a : A) (d : B) :
  index l i = Done a -> List.nth (Z.to_nat i) (List.map f l) d = f a.
Proof.
  intros H. apply index_Done in H. destruct H as [_ H].
  apply nth_error_nth. now apply map_nth_error.
Qed.

Lemma index_nth_Done {A} (l : list A) (i : Z) (a d : A) :
  index l i = Done a -> List.nth (Z.to_nat i) l d = a.
Proof.
  intros H. apply index_Done in H. destruct H as [_ H].
  now apply nth_error_nth.
Qed.

Lemma hexConvert_accepts s r g b :
  hexConvert s = (r, g, b, None) -> validColor s = true.
Proof. intros H. apply hexConvert_valid. now rewrite H. Qed.

Lemma hexConvert_rejects s r g b e :
  hexConvert s = (r, g, b, Some e) ->
  validColor s = false /\ snd (hexConvert s) = Some e.
Proof.
  intros H. split; [|now rewrite H].
  destruct (validColor s) eqn:E; [|reflexivity].
  apply hexConvert_valid in E. rewrite H in E. discriminate.
Qed.

Lemma Done_pair_inj {I E : Type} (i i' : I) (e e' : E) :
  Done (i, e) = Done (i', e') -> i = i' /\ e = e'.
Proof. now intros [= -> ->]. Qed.

Section RendererProperties.

Variable Source : Type.
Variable NewSource : Z -> Source.
Variable Int31n : Source -> Z -> Z * Source.

Local Notation "'render'" := (Render Source NewSource Int31n).
Local Notation "'renderFlat'" := (RenderFlat Source NewSource Int31n).
Local Notation "'renderTwice'" := (RenderTwice Source NewSource Int31n).

Lemma Render_flat code totalSize settings :
  render code totalSize settings = renderFlat code totalSize settings.
Proof.
  unfold Render, RenderFlat.
  destruct (middleTemplate_range code) as [-> Hmt].
  destruct (field_ranges code) as (Hct & Hst & Hctn & Hstn).
  rewrite bind_lift_Done.
  unfold Intn, rand_New.
  destruct (len (ColorPalette settings) <=? 0); [reflexivity|].
  destruct (Int31n (NewSource (seed code)) (len (ColorPalette settings)))
    as [i1 rnd1].
  rewrite bind_mkRun_Done.
  destruct (index (ColorPalette settings) i1) as [first|msg];
    [rewrite bind_lift_Done | reflexivity].
  destruct (hexConvert (Color.Code first)) as [[[red green] blue] [e|]];
    [reflexivity|].
  destruct (Int31n rnd1 (len (ColorPalette settings))) as [i2 rnd2].
  rewrite bind_mkRun_Done.
  destruct (index (ColorPalette settings) i2) as [second|msg];
    [rewrite bind_lift_Done | reflexivity].
  destruct (hexConvert (Color.Code second))
    as [[[secondRed secondGreen] secondBlue] [e|]]; [reflexivity|].
  destruct (TransparentBackground settings); cbn [negb].
  - rewrite drawTiles_calls by exact Hmt. reflexivity.
  - destruct (len (BackgroundColors settings) <=? 0); [reflexivity|].
    destruct (Int31n rnd2 (len (BackgroundColors settings))) as [i3 rnd3].
    rewrite bind_mkRun_Done.
    destruct (index (BackgroundColors settings) i3) as [background|msg];
      [rewrite bind_lift_Done | reflexivity].
    destruct (hexConvert background) as [[[bgRed bgGreen] bgBlue] [e|]] eqn:Ebg;
      [reflexivity|].
    destruct (hexConvert_bytes _ _ _ _ _ Ebg) as (Hr & Hg & Hb).
    rewrite drawTiles_calls by exact Hmt.
    unfold int. rewrite !int64_small by lia.
    reflexivity.
Qed.



Lemma Render_image_calls (code totalSize : Z) (settings : Settings)
    (img : gg.Raster) :
  result (render code totalSize settings) = Done (Some img, None) ->
  exists (background : list gg.call) (middleColor foreColor otherColor : color.RGBA),
    (TransparentBackground settings = true /\ background = [] \/
     TransparentBackground settings = false /\
     exists r g b, background = backgroundCalls totalSize r g b) /\
    (middleColor = foreColor \/ middleColor = otherColor) /\
    gg.side_w img = totalSize /\ gg.side_h img = totalSize /\
    gg.drawn img =
      background
      ++ nineTiles code totalSize
           (List.nth (Z.to_nat (middleTypeRaw code)) middlePatchSet 0)
           middleColor foreColor otherColor.
Proof.
  rewrite Render_flat. unfold RenderFlat.
  destruct (len (ColorPalette settings) <=? 0); [discriminate|].
  destruct (Int31n _ _) as [i1 rnd1].
  destruct (index (ColorPalette settings) i1) as [first|]; [|discriminate].
  destruct (hexConvert (Color.Code first)) as [[[red green] blue] [e|]];
    [discriminate|].
  destruct (Int31n rnd1 _) as [i2 rnd2].
  destruct (index (ColorPalette settings) i2) as [second|]; [|discriminate].
  destruct (hexConvert (Color.Code second))
    as [[[secondRed secondGreen] secondBlue] [e|]]; [discriminate|].
  set (foreColor := {| color.R := red; color.G := green; color.B := blue;
                       color.A := Alpha settings |}).
  set (otherColor := if TwoColor settings then _ else foreColor).
  assert ((if swapCross code then foreColor else otherColor) = foreColor \/
          (if swapCross code then foreColor else otherColor) = otherColor) as Hm
    by (destruct (swapCross code); auto).
  destruct (TransparentBackground settings) eqn:Ht.
  - cbn [result]. intros H. apply Done_image_inj in H. subst img.
    exists [], (if swapCross code then foreColor else otherColor),
      foreColor, otherColor.
    split; [left; split; reflexivity|]. split; [exact Hm|].
    split; [reflexivity|]. split; reflexivity.
  - destruct (len (BackgroundColors settings) <=? 0); [discriminate|].
    destruct (Int31n rnd2 _) as [i3 rnd3].
    destruct (index (BackgroundColors settings) i3) as [background|];
      [|discriminate].
    destruct (hexConvert background) as [[[bgRed bgGreen] bgBlue] [e|]];
      [discriminate|].
    cbn [result]. intros H. apply Done_image_inj in H. subst img.
    exists (backgroundCalls totalSize bgRed bgGreen bgBlue),
      (if swapCross code then foreColor else otherColor), foreColor, otherColor.
    split; [right; split; [reflexivity|]; now exists bgRed, bgGreen, bgBlue|].
    split; [exact Hm|]. split; [reflexivity|]. split; reflexivity.
Qed.

(** C5: when [Render] returns an image, the calls on its canvas are, in
    this order: the background fill exactly when the background is not
    transparent; the middle tile at (1,1) with no turn; the side tiles at
    (1,0), (2,1), (1,2), (0,1), the i-th turned [sideTurn + 1 + i] quarter
    turns and filled with [foreColor]; the corner tiles at (0,0), (2,0),
    (2,2), (0,2), the i-th turned [cornerTurn + 1 + i] quarter turns and
    filled with [otherColor].  Each tile takes its turns mod 4 and scales
    the template by the tile side [float64 totalSize / 3] over the grid of
    4 units ([tileCalls]): the source computes [x / 4 * patchSize], which
    for sizes below 2^17 is [x * (patchSize / 4)] to the last bit. *)
Theorem Render_draw_order (code totalSize : Z) (settings : Settings)
    (img : gg.Raster) :
  result (render code totalSize settings) = Done (Some img, None) ->
  exists (background : list gg.call) (middleTemplate : Z)
         (middleColor foreColor otherColor : color.RGBA),
    (TransparentBackground settings = true /\ background = [] \/
     TransparentBackground settings = false /\
     exists r g b,
       background = [ gg.CDrawRectangle 0 0 (float64 totalSize) (float64 totalSize);
                      gg.CSetRGB255 r g b; gg.CFill ]) /\
    middleType code = Done middleTemplate /\
    (middleColor = foreColor \/ middleColor = otherColor) /\
    gg.side_w img = totalSize /\ gg.side_h img = totalSize /\
    let patchSize := (float64 totalSize / 3)%float in
    gg.drawn img =
      background
      ++ tileCalls patchSize (gg.Pt 1 1) 0
           (middleInvert code) middleTemplate middleColor
      ++ tileCalls patchSize (gg.Pt 1 0) (sideTurn code + 1 + 0)
           (sideInvert code) (sideType code) foreColor
      ++ tileCalls patchSize (gg.Pt 2 1) (sideTurn code + 1 + 1)
           (sideInvert code) (sideType code) foreColor
      ++ tileCalls patchSize (gg.Pt 1 2) (sideTurn code + 1 + 2)
           (sideInvert code) (sideType code) foreColor
      ++ tileCalls patchSize (gg.Pt 0 1) (sideTurn code + 1 + 3)
           (sideInvert code) (sideType code) foreColor
      ++ tileCalls patchSize (gg.Pt 0 0) (cornerTurn code + 1 + 0)
           (cornerInvert code) (cornerType code) otherColor
      ++ tileCalls patchSize (gg.Pt 2 0) (cornerTurn code + 1 + 1)
           (cornerInvert code) (cornerType code) otherColor
      ++ tileCalls patchSize (gg.Pt 2 2) (cornerTurn code + 1 + 2)
           (cornerInvert code) (cornerType code) otherColor
      ++ tileCalls patchSize (gg.Pt 0 2) (cornerTurn code + 1 + 3)
           (cornerInvert code) (cornerType code) otherColor /\
    (0 <= totalSize < 131072 ->
     forall x, In x [0; 1; 2; 3; 4]%float ->
       (x / 4 * patchSize = x * (patchSize / 4))%float).
Proof.
  intros H. apply Render_image_calls in H.
  destruct H as (background & middleColor & foreColor & otherColor
                 & Hbg & Hm & Hw & Hh & Hd).
  exists background,
    (List.nth (Z.to_nat (middleTypeRaw code)) middlePatchSet 0),
    middleColor, foreColor, otherColor.
  split; [exact Hbg|].
  split; [apply middleTemplate_range|].
  split; [exact Hm|]. split; [exact Hw|]. split; [exact Hh|].
  split; [exact Hd|].
  intros Ht x Hx. now apply scale_quarter.
Qed.


Lemma Render_draws_in_range (code totalSize : Z) (settings : Settings) :
  (forall rnd n, 0 < n -> 0 <= fst (Int31n rnd n) < n) ->
  ColorPalette settings <> [] ->
  (TransparentBackground settings = false -> BackgroundColors settings <> []) ->
  let r := render code totalSize settings in
  (exists img err, result r = Done (img, err)) /\
  draws r <> [] /\
  List.map fst (draws r)
    = firstn (List.length (draws r))
        [ len (ColorPalette settings); len (ColorPalette settings);
          len (BackgroundColors settings) ] /\
  (TransparentBackground settings = true -> (List.length (draws r) <= 2)%nat) /\
  Forall (fun d => 0 <= snd d < fst d) (draws r) /\
  (len (ColorPalette settings) = 1 ->
   Forall (fun d => snd d = 0) (firstn 2 (draws r))) /\
  (len (BackgroundColors settings) = 1 ->
   Forall (fun d => snd d = 0) (skipn 2 (draws r))).
Proof.
  intros Hrange Hpal Hbg r. subst r.
  rewrite Render_flat. unfold RenderFlat.
  assert (0 < len (ColorPalette settings)) as Hp
    by (unfold len; destruct (ColorPalette settings); [congruence | cbn; lia]).
  replace (len (ColorPalette settings) <=? 0) with false
    by (symmetry; apply Z.leb_gt; exact Hp).
  pose proof (Hrange (rand_New Source (NewSource (seed code))) _ Hp) as R1.
  destruct (Int31n _ _) as [i1 rnd1]. cbn [fst] in R1.
  rewrite (index_nth _ _ {| Color.Name := ""; Color.Code := "" |} R1).
  destruct (hexConvert _) as [[[red green] blue] [e|]].
  { cbn [draws result List.map fst snd firstn skipn List.length].
    repeat split; eauto; try discriminate; try lia;
      repeat constructor; cbn [fst snd]; lia. }
  pose proof (Hrange rnd1 _ Hp) as R2.
  destruct (Int31n rnd1 _) as [i2 rnd2]. cbn [fst] in R2.
  rewrite (index_nth _ _ {| Color.Name := ""; Color.Code := "" |} R2).
  destruct (hexConvert _) as [[[secondRed secondGreen] secondBlue] [e|]].
  { cbn [draws result List.map fst snd firstn skipn List.length].
    repeat split; eauto; try discriminate; try lia;
      repeat constructor; cbn [fst snd]; lia. }
  destruct (TransparentBackground settings).
  { cbn [draws result List.map fst snd firstn skipn List.length].
    repeat split; eauto; try discriminate; try lia;
      repeat constructor; cbn [fst snd]; lia. }
  assert (0 < len (BackgroundColors settings)) as Hq.
  { specialize (Hbg eq_refl). unfold len.
    destruct (BackgroundColors settings); [congruence | cbn; lia]. }
  replace (len (BackgroundColors settings) <=? 0) with false
    by (symmetry; apply Z.leb_gt; exact Hq).
  pose proof (Hrange rnd2 _ Hq) as R3.
  destruct (Int31n rnd2 _) as [i3 rnd3]. cbn [fst] in R3.
  rewrite (index_nth _ _ "" R3).
  destruct (hexConvert _) as [[[bgRed bgGreen] bgBlue] [e|]];
    cbn [draws result List.map fst snd firstn skipn List.length];
    (repeat split; eauto; try discriminate; try lia;
      repeat constructor; cbn [fst snd]; lia).
Qed.





(** C7 (as amended): flipping bit 47 leaves the template, the inversion
    and the rotation of every tile unchanged and negates [swapCross]; but
    it also changes the seed of the generator, by 2^16 modulo 2^31 - 1,
    so the colours sampled for the sides, the corners and the background
    may change as well as the middle tile's.  When both codes render to an
    image, the two images make the same calls up to colours. *)
Theorem flipSwapCross_effect (code totalSize : Z) (settings : Settings) :
  (middleTypeRaw (flipSwapCross code) = middleTypeRaw code /\
   middleInvert (flipSwapCross code) = middleInvert code /\
   cornerType (flipSwapCross code) = cornerType code /\
   cornerInvert (flipSwapCross code) = cornerInvert code /\
   cornerTurn (flipSwapCross code) = cornerTurn code /\
   sideType (flipSwapCross code) = sideType code /\
   sideInvert (flipSwapCross code) = sideInvert code /\
   sideTurn (flipSwapCross code) = sideTurn code /\
   swapCross (flipSwapCross code) = negb (swapCross code)) /\
  (seed (flipSwapCross code) <> seed code /\
   ((seed (flipSwapCross code) - seed code) mod (2 ^ 31 - 1) = 2 ^ 16 \/
    (seed code - seed (flipSwapCross code)) mod (2 ^ 31 - 1) = 2 ^ 16)) /\
  (forall img1 img2,
     result (render code totalSize settings) = Done (Some img1, None) ->
     result (render (flipSwapCross code) totalSize settings)
       = Done (Some img2, None) ->
     gg.side_w img1 = gg.side_w img2 /\ gg.side_h img1 = gg.side_h img2 /\
     blankColors (gg.drawn img1) = blankColors (gg.drawn img2)).
Proof.
  split; [apply flipSwapCross_fields|]. split; [apply flipSwapCross_seed|].
  intros img1 img2 H1 H2.
  apply Render_image_calls in H1, H2.
  destruct H1 as (bg1 & m1 & f1 & o1 & Hbg1 & _ & Hw1 & Hh1 & Hd1).
  destruct H2 as (bg2 & m2 & f2 & o2 & Hbg2 & _ & Hw2 & Hh2 & Hd2).
  split; [congruence|]. split; [congruence|].
  rewrite Hd1, Hd2, !blankColors_app.
  rewrite (blankColors_nineTiles _ _ _ m1), (blankColors_nineTiles _ _ _ m2).
  destruct (flipSwapCross_fields code)
    as (F1 & F2 & F3 & F4 & F5 & F6 & F7 & F8 & _).
  f_equal.
  - destruct Hbg1 as [[T1 ->] | [T1 (r1 & g1 & b1 & ->)]];
      destruct Hbg2 as [[T2 ->] | [T2 (r2 & g2 & b2 & ->)]];
      try congruence; reflexivity.
  - unfold nineTiles. rewrite F1, F2, F3, F4, F5, F6, F7, F8. reflexivity.
Qed.

End RendererProperties.

(** ** Concrete runs with the reference generator *)

Lemma Lehmer_in_range (rnd : Lehmer.Source) (n : Z) :
  0 < n -> 0 <= fst (Lehmer.Int31n rnd n) < n.
Proof. intros Hn. unfold Lehmer.Int31n. cbn [fst]. apply Z.mod_pos_bound, Hn. Qed.

Lemma RenderL_zero :
  result (RenderL 0 300 DefaultSettings)
  = Done (Some (imageOf (RenderL 0 300 DefaultSettings)), None).
Proof. vm_compute. reflexivity. Qed.

Lemma RenderL_flipped :
  result (RenderL (flipSwapCross 0) 300 DefaultSettings)
  = Done (Some (imageOf (RenderL (flipSwapCross 0) 300 DefaultSettings)), None).
Proof. vm_compute. reflexivity. Qed.

(** Call 22 of a rendering with an opaque background and a four-point
    middle template sets the colour of the first side tile. *)
Lemma sides_differ :
  List.nth_error (blankFirstColor (gg.drawn (imageOf (RenderL 0 300 DefaultSettings)))) 22
  <> List.nth_error (blankFirstColor
       (gg.drawn (imageOf (RenderL (flipSwapCross 0) 300 DefaultSettings)))) 22.
Proof. vm_compute. discriminate. Qed.

(** C7, counterexample: with the reference generator, code 0 and the code
    with bit 47 set render, under the default settings, images whose side
    tiles have different fill colours (the draws are 33, 28, 2 against
    1, 3, 2): the difference is not confined to the middle tile. *)
Lemma swapCross_affects_more_than_middle :
  ~ swapCross_affects_middle_color_only
      Lehmer.Source Lehmer.NewSource Lehmer.Int31n.
Proof.
  intros H.
  specialize (H 0 300 DefaultSettings _ _ RenderL_zero RenderL_flipped).
  apply sides_differ. now rewrite H.
Qed.

(** ** Witnesses: the theorems at concrete inputs *)


(** The image of code 0 at size 300 has side 300. *)
Lemma Render_draw_order_witness :
  gg.side_w (imageOf (RenderL 0 300 DefaultSettings)) = 300.
Proof.
  assert (result (RenderL 0 300 DefaultSettings)
          = Done (Some (imageOf (RenderL 0 300 DefaultSettings)), None)) as H
    by (vm_compute; reflexivity).
  apply Render_draw_order in H.
  destruct H as (bg & mt & mc & fc & oc & _ & _ & _ & Hw & _).
  exact Hw.
Defined.


(** Code 0 and code 2^47 draw the same shapes. *)
Lemma flipSwapCross_effect_witness :
  blankColors (gg.drawn (imageOf (RenderL 0 300 DefaultSettings)))
  = blankColors (gg.drawn (imageOf (RenderL (flipSwapCross 0) 300 DefaultSettings))).
Proof.
  destruct (flipSwapCross_effect Lehmer.Source Lehmer.NewSource Lehmer.Int31n
              0 300 DefaultSettings) as (_ & _ & H).
  apply H; vm_compute; reflexivity.
Defined.

(** Template 6 at the point (3/2, 5/2). *)
Lemma drawPatch_invert_complement_witness :
  filled 3 5 2 [List.nth 6 pathSetGrid []; boundaryGrid]
  = negb (filled 3 5 2 [List.nth 6 pathSetGrid []]).
Proof.
  destruct (drawPatch_invert_complement 6 ltac:(lia)) as (_ & _ & H & _).
  destruct (H 3 5 2 ltac:(lia) ltac:(lia) ltac:(lia)) as [H' _].
  exact H'.
Defined.



(** * Further properties *)

(** ** [hexConvert]: what it accepts, what it answers, which error it gives *)

(** X1: [hexConvert] succeeds exactly on the strings made of 6 hex digits,
    optionally prefixed with one [#]; the three values it then returns are
    bytes. *)
Theorem hexConvert_accepts_iff (s : string) :
  (exists r g b, hexConvert s = (r, g, b, None) /\
                 0 <= r < 256 /\ 0 <= g < 256 /\ 0 <= b < 256)
  <-> validColor s = true.
Proof.
  split.
  - intros (r & g & b & H & _). apply hexConvert_valid. now rewrite H.
  - intros H. apply hexConvert_valid in H.
    destruct (hexConvert s) as [[[r g] b] e] eqn:E. cbn [snd] in H. subst e.
    exists r, g, b. split; [reflexivity|]. exact (hexConvert_bytes _ _ _ _ _ E).
Qed.

Lemma Decode_first_invalid s c :
  firstNonHex s = Some c -> snd (hex.Decode s) = Some (InvalidByteError c).
Proof.
  unfold firstNonHex.
  induction s as [|p|p q rest IH] using string_pair_ind.
  - discriminate.
  - cbn. rewrite isHexDigit_fromHexChar.
    destruct (hex.fromHexChar p); cbn; [discriminate | congruence].
  - cbn [hex.Decode list_ascii_of_string List.find].
    rewrite !isHexDigit_fromHexChar.
    destruct (hex.fromHexChar p); cbn [negb]; [|cbn; congruence].
    destruct (hex.fromHexChar q); cbn [negb]; [|cbn; congruence].
    intros H. specialize (IH H).
    destruct (hex.Decode rest) as [bs err]. exact IH.
Qed.

Lemma Decode_odd s :
  firstNonHex s = None -> Nat.odd (String.length s) = true ->
  snd (hex.Decode s) = Some ErrLength.
Proof.
  unfold firstNonHex.
  induction s as [|p|p q rest IH] using string_pair_ind.
  - discriminate.
  - cbn. rewrite isHexDigit_fromHexChar.
    destruct (hex.fromHexChar p); cbn; [reflexivity | discriminate].
  - cbn [hex.Decode list_ascii_of_string List.find String.length].
    rewrite !isHexDigit_fromHexChar.
    destruct (hex.fromHexChar p); cbn [negb]; [|discriminate].
    destruct (hex.fromHexChar q); cbn [negb]; [|discriminate].
    intros H Ho. specialize (IH H Ho).
    destruct (hex.Decode rest) as [bs err]. exact IH.
Qed.

Lemma firstNonHex_None s :
  firstNonHex s = None <-> forallb isHexDigit (list_ascii_of_string s) = true.
Proof.
  unfold firstNonHex. induction (list_ascii_of_string s) as [|c l IH]; cbn.
  - tauto.
  - destruct (isHexDigit c); cbn; [exact IH|]. split; discriminate.
Qed.

(** X2: the error of [hexConvert], case by case, on the string left after
    one leading [#] is removed: an invalid-byte error for its first
    character that is not a hex digit; otherwise a length error of the hex
    decoder when its length is odd; otherwise the package's own error when
    its length is not 6.  With every error the three values are 0. *)
Theorem hexConvert_error_kinds (s : string) :
  let t := strings.TrimPrefix1 s "#"%char in
  (forall c, firstNonHex t = Some c ->
     hexConvert s = (0, 0, 0, Some (InvalidByteError c))) /\
  (firstNonHex t = None -> Nat.odd (String.length t) = true ->
     hexConvert s = (0, 0, 0, Some ErrLength)) /\
  (firstNonHex t = None -> Nat.odd (String.length t) = false ->
     String.length t <> 6%nat ->
     hexConvert s
     = (0, 0, 0, Some (errorString "code must be 6 digits long hex string"))).
Proof.
  intros t. unfold hexConvert, hex.DecodeString. fold t.
  split; [|split].
  - intros c H. apply Decode_first_invalid in H.
    destruct (hex.Decode t) as [bs e]. cbn [snd] in H. now subst e.
  - intros H Ho. pose proof (Decode_odd t H Ho) as E.
    destruct (hex.Decode t) as [bs e]. cbn [snd] in E. now subst e.
  - intros H Ho Hl. apply firstNonHex_None in H.
    assert (snd (hex.Decode t) = None) as E
      by (apply Decode_ok; split; [exact H|]; now rewrite <- Nat.negb_odd, Ho).
    pose proof (Decode_length t E) as L.
    destruct (hex.Decode t) as [bs e]. cbn [fst snd] in E, L. subst e.
    replace (negb (len bs =? 3)) with true; [reflexivity|].
    symmetry. apply negb_true_iff, Z.eqb_neq. unfold len. lia.
Qed.

Lemma below_16_cases (P : Z -> Prop) :
  P 0 -> P 1 -> P 2 -> P 3 -> P 4 -> P 5 -> P 6 -> P 7 -> P 8 -> P 9 ->
  P 10 -> P 11 -> P 12 -> P 13 -> P 14 -> P 15 ->
  forall v, 0 <= v < 16 -> P v.
Proof.
  intros H0 H1 H2 H3 H4 H5 H6 H7 H8 H9 H10 H11 H12 H13 H14 H15 v Hv.
  assert (v = 0 \/ v = 1 \/ v = 2 \/ v = 3 \/ v = 4 \/ v = 5 \/ v = 6 \/ v = 7 \/
          v = 8 \/ v = 9 \/ v = 10 \/ v = 11 \/ v = 12 \/ v = 13 \/ v = 14 \/
          v = 15) as H by lia.
  repeat (destruct H as [-> | H]; [assumption|]). now subst.
Qed.

Lemma fromHexChar_hexDigit v :
  0 <= v < 16 ->
  hex.fromHexChar (hexDigit v) = Some v /\ Ascii.eqb (hexDigit v) "#"%char = false.
Proof. revert v. apply below_16_cases; split; reflexivity. Qed.

Lemma Decode_hexByte b rest :
  0 <= b < 256 ->
  hex.Decode (hexByte b rest)
  = (b :: fst (hex.Decode rest), snd (hex.Decode rest)).
Proof.
  intros Hb. unfold hexByte. cbn [hex.Decode].
  assert (0 <= b / 16 < 16) as Hh
    by (split; [apply Z.div_pos | apply Z.div_lt_upper_bound]; lia).
  assert (0 <= b mod 16 < 16) as Hl by (apply Z.mod_pos_bound; lia).
  destruct (fromHexChar_hexDigit _ Hh) as [-> _].
  destruct (fromHexChar_hexDigit _ Hl) as [-> _].
  destruct (hex.Decode rest) as [bs e]. cbn [fst snd]. f_equal. f_equal.
  rewrite Z.lor_comm, Z.shiftl_mul_pow2 by lia.
  rewrite (lor_block (b mod 16) (b / 16 * 2 ^ 4) 4); try lia.
  - change (2 ^ 4) with 16. pose proof (Z.div_mod b 16). lia.
  - now exists (b / 16).
Qed.

(** X3: writing three bytes as six lower-case hex digits and converting the
    string back gives the three bytes, with or without the leading [#]. *)
Theorem hexConvert_hexColor (r g b : Z) :
  0 <= r < 256 -> 0 <= g < 256 -> 0 <= b < 256 ->
  hexConvert (hexColor r g b) = (r, g, b, None) /\
  hexConvert (String "#"%char (hexColor r g b)) = (r, g, b, None).
Proof.
  intros Hr Hg Hb.
  assert (hex.Decode (hexColor r g b) = ([r; g; b], None)) as D.
  { unfold hexColor. rewrite !Decode_hexByte by assumption. reflexivity. }
  assert (0 <= r / 16 < 16) as Hh
    by (split; [apply Z.div_pos | apply Z.div_lt_upper_bound]; lia).
  destruct (fromHexChar_hexDigit _ Hh) as [_ Hn].
  split; unfold hexConvert, hex.DecodeString.
  - replace (strings.TrimPrefix1 (hexColor r g b) "#"%char) with (hexColor r g b).
    + rewrite D. reflexivity.
    + unfold hexColor, hexByte, strings.TrimPrefix1. now rewrite Hn.
  - cbn [strings.TrimPrefix1 Ascii.eqb Bool.eqb]. rewrite D. reflexivity.
Qed.

Lemma lowerChar_hex c :
  hex.fromHexChar (lowerChar c) = hex.fromHexChar c /\
  Ascii.eqb (lowerChar c) "#"%char = Ascii.eqb c "#"%char.
Proof. destruct c as [[] [] [] [] [] [] [] []]; split; reflexivity. Qed.

Lemma Decode_lowerString s :
  fst (hex.Decode (lowerString s)) = fst (hex.Decode s) /\
  (snd (hex.Decode (lowerString s)) = None <-> snd (hex.Decode s) = None).
Proof.
  induction s as [|p|p q rest IH] using string_pair_ind.
  - cbn. tauto.
  - cbn. destruct (lowerChar_hex p) as [-> _].
    destruct (hex.fromHexChar p); cbn; split; try reflexivity;
      split; discriminate.
  - cbn [lowerString hex.Decode].
    destruct (lowerChar_hex p) as [-> _]. destruct (lowerChar_hex q) as [-> _].
    destruct (hex.fromHexChar p);
      [|cbn; split; [reflexivity | split; discriminate]].
    destruct (hex.fromHexChar q);
      [|cbn; split; [reflexivity | split; discriminate]].
    destruct (hex.Decode (lowerString rest)) as [bs' e'].
    destruct (hex.Decode rest) as [bs e]. cbn [fst snd] in *.
    destruct IH as [-> IH]. split; [reflexivity | exact IH].
Qed.

(** X4: the case of the letters does not matter: a string and its lower-case
    form are accepted or rejected together and give the same three values. *)
Theorem hexConvert_ignores_case (s : string) :
  fst (hexConvert (lowerString s)) = fst (hexConvert s) /\
  (snd (hexConvert (lowerString s)) = None <-> snd (hexConvert s) = None).
Proof.
  unfold hexConvert, hex.DecodeString.
  assert (strings.TrimPrefix1 (lowerString s) "#"%char
          = lowerString (strings.TrimPrefix1 s "#"%char)) as ->.
  { destruct s as [|c rest]; [reflexivity|].
    cbn [lowerString strings.TrimPrefix1].
    destruct (lowerChar_hex c) as [_ ->].
    destruct (Ascii.eqb c "#"%char); reflexivity. }
  destruct (Decode_lowerString (strings.TrimPrefix1 s "#"%char)) as [Hf Hs].
  destruct (hex.Decode (lowerString (strings.TrimPrefix1 s "#"%char))) as [bs' e'].
  destruct (hex.Decode (strings.TrimPrefix1 s "#"%char)) as [bs e].
  cbn [fst snd] in Hf, Hs. subst bs'.
  destruct e' as [x'|], e as [x|]; cbn [fst snd].
  - split; [reflexivity | split; discriminate].
  - destruct Hs as [_ Hs]. discriminate (Hs eq_refl).
  - destruct Hs as [Hs _]. discriminate (Hs eq_refl).
  - destruct (negb (len bs =? 3)); cbn [fst snd]; split; tauto.
Qed.

(** ** The templates stay in their tile, and the middle ones turn into themselves *)

(** X5: no template paints outside its tile, inverted or not: at every point
    with rational coordinates outside the square of side 4 the winding
    number of the template, and of the template with the boundary added,
    is 0. *)
Theorem templates_stay_in_tile (t : list (Z * Z)) (x y d : Z) :
  In t pathSetGrid -> 0 < d ->
  x < 0 \/ 4 * d <= x \/ y < 0 \/ 4 * d <= y ->
  filled x y d [t] = false /\ filled x y d [t; boundaryGrid] = false.
Proof.
  intros Ht Hd Hout.
  assert (winding x y d [boundaryGrid] = 0) as Hb.
  { cbv [winding boundaryGrid edges edgesFrom crossing List.map List.concat
         fold_right app].
    split_tests; cbn [andb]; lia. }
  assert (winding x y d [t] = 0) as Hw.
  { unfold pathSetGrid in Ht. cbn [In] in Ht.
    repeat (destruct Ht as [E | Ht]; [subst t|]); try contradiction.
    all: cbv [winding edges edgesFrom crossing List.map List.concat
              fold_right app].
    all: split_tests; cbn [andb]; lia. }
  unfold filled.
  change [t; boundaryGrid] with ([t] ++ [boundaryGrid]).
  rewrite winding_app, Hw, Hb. split; reflexivity.
Qed.

(** X6: each template that the middle tile can take is turned into itself
    by a quarter turn about the centre of the template grid: the turned
    outline is the same closed outline, started one corner later. *)
Theorem middle_templates_turn_invariant (t : Z) :
  In t middlePatchSet ->
  let outline := List.nth (Z.to_nat t) pathSetGrid [] in
  List.map turnGrid outline = List.tl outline ++ firstn 1 outline.
Proof.
  unfold middlePatchSet. cbn [In].
  intros [<- | [<- | [<- | [<- | []]]]]; reflexivity.
Qed.

(** ** [drawPatch]: bounds of the catalogue, frame of the canvas, turns *)

Lemma drawPatch_inner pos turn invert type_ image patchSize c penWidth :
  0 <= type_ < 16 ->
  drawPatch pos turn invert type_ image patchSize c penWidth
  = Done {| gg.width := gg.width image; gg.height := gg.height image;
            gg.calls := gg.calls image ++ [gg.CPush]
              ++ ([ gg.CTranslate
                      (gg.X pos * patchSize + float64 penWidth / 2)%float
                      (gg.Y pos * patchSize + float64 penWidth / 2)%float;
                    gg.CRotateAbout (float64 (Z.rem turn 4) * Pi / 2)%float
                                    (patchSize / 2)%float (patchSize / 2)%float ]
                  ++ templateCalls patchSize type_
                  ++ [ gg.CClosePath ]
                  ++ (if invert then boundaryCalls patchSize else [])
                  ++ [ gg.CSetColor c; gg.CFill ])
              ++ [gg.CPop] |}.
Proof.
  intros Ht. unfold drawPatch.
  rewrite (index_nth pathSet type_ []) by exact Ht.
  cbn [obind]. rewrite trace_path.
  unfold templateCalls, boundaryCalls.
  generalize (List.nth (Z.to_nat type_) pathSet []). intros path.
  unfold gg.Pop, gg.Fill, gg.SetColor, gg.ClosePath, gg.LineTo, gg.MoveTo,
    gg.RotateAbout, gg.Translate, gg.Push, gg.invoke.
  destruct invert; cbn [gg.calls gg.width gg.height]; f_equal; f_equal;
    repeat (rewrite <- app_assoc; cbn [app]); reflexivity.
Qed.

Lemma frameDepth_flat d (cs : list gg.call) :
  Forall (fun c => c <> gg.CPush /\ c <> gg.CPop) cs ->
  frameDepth d cs = Some d.
Proof.
  induction 1 as [|c cs [H1 H2] _ IH]; [reflexivity|].
  destruct c; cbn [frameDepth]; try exact IH; congruence.
Qed.

(** X7: [drawPatch] panics exactly when the template index is outside the
    catalogue, before any call is made; otherwise the canvas keeps its
    size and the calls made before, the new ones coming after them: one
    frame pushed first and popped last, and none in between. *)
Theorem drawPatch_catalogue_bounds (pos : gg.Point) (turn : Z) (invert : bool)
    (type_ : Z) (image : gg.Context) (patchSize : float) (c : color.RGBA)
    (penWidth : Z) :
  (type_ < 0 \/ 16 <= type_ ->
   drawPatch pos turn invert type_ image patchSize c penWidth
   = Panic "index out of range") /\
  (0 <= type_ < 16 ->
   exists image' inner,
     drawPatch pos turn invert type_ image patchSize c penWidth = Done image' /\
     gg.width image' = gg.width image /\ gg.height image' = gg.height image /\
     gg.calls image' = gg.calls image ++ [gg.CPush] ++ inner ++ [gg.CPop] /\
     Forall (fun call => call <> gg.CPush /\ call <> gg.CPop) inner).
Proof.
  split.
  - intros H. unfold drawPatch, index.
    replace ((type_ <? 0) || (len pathSet <=? type_)) with true; [reflexivity|].
    symmetry. apply orb_true_iff.
    destruct H; [left; apply Z.ltb_lt | right; apply Z.leb_le]; trivial.
  - intros H. rewrite drawPatch_inner by exact H.
    eexists. eexists. split; [reflexivity|].
    cbn [gg.width gg.height gg.calls].
    split; [reflexivity|]. split; [reflexivity|]. split; [reflexivity|].
    unfold templateCalls, boundaryCalls.
    repeat (apply Forall_app; split);
      try (apply Forall_forall; intros x Hx; apply in_map_iff in Hx;
           destruct Hx as (p & <- & _); split; discriminate);
      try (destruct invert); repeat constructor; discriminate.
Qed.

(** ** [Render]: when it succeeds, what it reads, what its images look like *)

Lemma index_In {A} (l : list A) (i : Z) (a : A) : index l i = Done a -> In a l.
Proof.
  intros H. apply index_Done in H. destruct H as [_ H].
  eapply nth_error_In, H.
Qed.

Lemma hexConvert_of_valid s :
  validColor s = true -> exists r g b, hexConvert s = (r, g, b, None).
Proof.
  intros H. apply hexConvert_valid in H.
  destruct (hexConvert s) as [[[r g] b] e]. cbn [snd] in H. subst e. eauto.
Qed.

Lemma index_map {A B} (f : A -> B) (l : list A) (i : Z) :
  index (List.map f l) i
  = match index l i with Done a => Done (f a) | Panic msg => Panic msg end.
Proof.
  unfold index, len. rewrite length_map.
  destruct ((i <? 0) || (Z.of_nat (List.length l) <=? i)); [reflexivity|].
  rewrite nth_error_map. now destruct (nth_error l (Z.to_nat i)).
Qed.

Lemma tileColors_app cs1 cs2 :
  tileColors (cs1 ++ cs2) = tileColors cs1 ++ tileColors cs2.
Proof. apply flat_map_app. Qed.

Lemma tileColors_tile patchSize pos turn invert t c :
  tileColors (tileCalls patchSize pos turn invert t c) = [c].
Proof.
  unfold tileCalls, templateCalls. rewrite !tileColors_app.
  assert (forall l : list gg.Point,
            tileColors (List.map (fun p => gg.CLineTo (gg.X p / 4 * patchSize)%float
                                             (gg.Y p / 4 * patchSize)%float) l) = [])
    as -> by (induction l; [reflexivity | assumption]).
  destruct invert; reflexivity.
Qed.

Lemma tileColors_nineTiles code totalSize mt mc fc oc :
  tileColors (nineTiles code totalSize mt mc fc oc)
  = [mc; fc; fc; fc; fc; oc; oc; oc; oc].
Proof.
  unfold nineTiles. rewrite !tileColors_app, !tileColors_tile. reflexivity.
Qed.

Lemma mod_testbit_low c k n :
  0 <= k < n -> Z.testbit (c mod 2 ^ n) k = Z.testbit c k.
Proof. intros H. apply Z.mod_pow2_bits_low. lia. Qed.

Lemma bitfield_low_bits c lo width n :
  0 <= lo -> lo + Z.of_nat width <= n ->
  bitfield (c mod 2 ^ n) lo width = bitfield c lo width.
Proof.
  revert lo. induction width as [|w IH]; intros lo Hlo Hhi; [reflexivity|].
  cbn [bitfield]. rewrite IH, mod_testbit_low by lia. reflexivity.
Qed.

Lemma shape_fields_low_bits c :
  middleTypeRaw (c mod 2 ^ 17) = middleTypeRaw c /\
  middleInvert (c mod 2 ^ 17) = middleInvert c /\
  cornerType (c mod 2 ^ 17) = cornerType c /\
  cornerInvert (c mod 2 ^ 17) = cornerInvert c /\
  cornerTurn (c mod 2 ^ 17) = cornerTurn c /\
  sideType (c mod 2 ^ 17) = sideType c /\
  sideInvert (c mod 2 ^ 17) = sideInvert c /\
  sideTurn (c mod 2 ^ 17) = sideTurn c.
Proof.
  rewrite !middleTypeRaw_bits, !cornerType_bits, !cornerTurn_bits,
    !sideType_bits, !sideTurn_bits.
  unfold middleInvert, cornerInvert, sideInvert.
  rewrite !mask_flag, !mod_testbit_low by lia.
  rewrite !bitfield_low_bits by (cbn; lia).
  repeat split; reflexivity.
Qed.

Lemma frameDepth_app d cs1 cs2 :
  frameDepth d (cs1 ++ cs2)
  = match frameDepth d cs1 with
    | Some d' => frameDepth d' cs2
    | None => None
    end.
Proof.
  revert d. induction cs1 as [|c cs1 IH]; intros d; [reflexivity|].
  destruct c; cbn [app frameDepth]; try apply IH; destruct d; auto.
Qed.

Lemma templateCalls_flat patchSize t :
  Forall (fun c => c <> gg.CPush /\ c <> gg.CPop) (templateCalls patchSize t) /\
  List.filter isFill (templateCalls patchSize t) = [] /\
  List.filter isPush (templateCalls patchSize t) = [].
Proof.
  unfold templateCalls.
  induction (List.nth (Z.to_nat t) pathSet []) as [|p l (IH1 & IH2 & IH3)]; cbn.
  - repeat split; constructor.
  - repeat split; trivial. constructor; [split; discriminate | exact IH1].
Qed.

Lemma tileCalls_frame patchSize pos turn invert t c :
  frameDepth 0 (tileCalls patchSize pos turn invert t c) = Some 0%nat /\
  countCalls isFill (tileCalls patchSize pos turn invert t c) = 1%nat /\
  countCalls isPush (tileCalls patchSize pos turn invert t c) = 1%nat.
Proof.
  destruct (templateCalls_flat patchSize t) as (F & Hf & Hp).
  unfold tileCalls, countCalls. cbn [app frameDepth List.filter isFill isPush].
  rewrite !filter_app, Hf, Hp, frameDepth_app, (frameDepth_flat _ _ F).
  destruct invert; repeat split; reflexivity.
Qed.

Lemma countCalls_app f cs1 cs2 :
  countCalls f (cs1 ++ cs2) = (countCalls f cs1 + countCalls f cs2)%nat.
Proof. unfold countCalls. now rewrite filter_app, length_app. Qed.

Lemma nineTiles_frame code totalSize mt mc fc oc :
  frameDepth 0 (nineTiles code totalSize mt mc fc oc) = Some 0%nat /\
  countCalls isFill (nineTiles code totalSize mt mc fc oc) = 9%nat /\
  countCalls isPush (nineTiles code totalSize mt mc fc oc) = 9%nat.
Proof.
  unfold nineTiles.
  repeat split.
  - repeat (rewrite frameDepth_app;
            rewrite (proj1 (tileCalls_frame _ _ _ _ _ _))).
    apply tileCalls_frame.
  - rewrite !countCalls_app.
    rewrite !(proj1 (proj2 (tileCalls_frame _ _ _ _ _ _))). reflexivity.
  - rewrite !countCalls_app.
    rewrite !(proj2 (proj2 (tileCalls_frame _ _ _ _ _ _))). reflexivity.
Qed.

Lemma paints_app cs1 cs2 : paints (cs1 ++ cs2) = paints cs1 ++ paints cs2.
Proof. apply filter_app. Qed.

Lemma paints_tile patchSize pos turn invert t c :
  paints (tileCalls patchSize pos turn invert t c) = [gg.CSetColor c].
Proof.
  unfold tileCalls, templateCalls. rewrite !paints_app.
  assert (forall l : list gg.Point,
            paints (List.map (fun p => gg.CLineTo (gg.X p / 4 * patchSize)%float
                                         (gg.Y p / 4 * patchSize)%float) l) = [])
    as -> by (induction l; [reflexivity | assumption]).
  destruct invert; reflexivity.
Qed.

Lemma paints_nineTiles code totalSize mt mc fc oc :
  paints (nineTiles code totalSize mt mc fc oc)
  = List.map gg.CSetColor [mc; fc; fc; fc; fc; oc; oc; oc; oc].
Proof.
  unfold nineTiles. rewrite !paints_app, !paints_tile. reflexivity.
Qed.

Section RendererFurther.

Variable Source : Type.
Variable NewSource : Z -> Source.
Variable Int31n : Source -> Z -> Z * Source.

Local Notation "'render'" := (Render Source NewSource Int31n).

Lemma Render_of_valid_colors (code totalSize : Z) (settings : Settings) :
  (forall rnd n, 0 < n -> 0 <= fst (Int31n rnd n) < n) ->
  ColorPalette settings <> [] ->
  (TransparentBackground settings = false -> BackgroundColors settings <> []) ->
  colorsValid settings = true ->
  exists img,
    result (render code totalSize settings) = Done (Some img, None) /\
    List.length (draws (render code totalSize settings))
    = (if TransparentBackground settings then 2 else 3)%nat.
Proof.
  intros Hrange Hpal Hbg Hvalid.
  unfold colorsValid in Hvalid. apply andb_true_iff in Hvalid.
  destruct Hvalid as [Vp Vb]. rewrite forallb_forall in Vp.
  rewrite Render_flat. unfold RenderFlat.
  assert (0 < len (ColorPalette settings)) as Hp
    by (unfold len; destruct (ColorPalette settings); [congruence | cbn; lia]).
  replace (len (ColorPalette settings) <=? 0) with false
    by (symmetry; apply Z.leb_gt; exact Hp).
  pose proof (Hrange (rand_New Source (NewSource (seed code))) _ Hp) as R1.
  destruct (Int31n _ _) as [i1 rnd1]. cbn [fst] in R1.
  pose proof (index_nth _ _ {| Color.Name := ""; Color.Code := "" |} R1) as E1.
  rewrite E1.
  destruct (hexConvert_of_valid _ (Vp _ (index_In _ _ _ E1)))
    as (red & green & blue & ->).
  pose proof (Hrange rnd1 _ Hp) as R2.
  destruct (Int31n rnd1 _) as [i2 rnd2]. cbn [fst] in R2.
  pose proof (index_nth _ _ {| Color.Name := ""; Color.Code := "" |} R2) as E2.
  rewrite E2.
  destruct (hexConvert_of_valid _ (Vp _ (index_In _ _ _ E2)))
    as (sr & sg & sb & ->).
  destruct (TransparentBackground settings).
  { eexists. split; reflexivity. }
  cbn [orb] in Vb. rewrite forallb_forall in Vb.
  assert (0 < len (BackgroundColors settings)) as Hq.
  { specialize (Hbg eq_refl). unfold len.
    destruct (BackgroundColors settings); [congruence | cbn; lia]. }
  replace (len (BackgroundColors settings) <=? 0) with false
    by (symmetry; apply Z.leb_gt; exact Hq).
  pose proof (Hrange rnd2 _ Hq) as R3.
  destruct (Int31n rnd2 _) as [i3 rnd3]. cbn [fst] in R3.
  pose proof (index_nth _ _ "" R3) as E3. rewrite E3.
  destruct (hexConvert_of_valid _ (Vb _ (index_In _ _ _ E3)))
    as (br & bg & bb & ->).
  eexists. split; reflexivity.
Qed.




(** X11: with a transparent background the list of background colours is
    never read: two settings that differ only in that list, however empty
    or malformed, give the same run for every code and size. *)
Theorem Render_transparent_ignores_backgrounds (code totalSize : Z)
    (settings settings' : Settings) :
  TransparentBackground settings = true ->
  TransparentBackground settings' = true ->
  TwoColor settings' = TwoColor settings ->
  Alpha settings' = Alpha settings ->
  ColorPalette settings' = ColorPalette settings ->
  render code totalSize settings' = render code totalSize settings.
Proof.
  intros Ht Ht' H2 Ha Hp.
  rewrite !Render_flat. unfold RenderFlat.
  rewrite Ht, Ht', H2, Ha, Hp. reflexivity.
Qed.

(** X12: the name of a colour is never read: two settings whose palettes
    carry the same hex strings in the same order, under whatever names,
    and which agree otherwise, give the same run for every code and size. *)
Theorem Render_ignores_color_names (code totalSize : Z)
    (settings settings' : Settings) :
  List.map Color.Code (ColorPalette settings')
    = List.map Color.Code (ColorPalette settings) ->
  TwoColor settings' = TwoColor settings ->
  Alpha settings' = Alpha settings ->
  TransparentBackground settings' = TransparentBackground settings ->
  BackgroundColors settings' = BackgroundColors settings ->
  render code totalSize settings' = render code totalSize settings.
Proof.
  intros Hc H2 Ha Ht Hb.
  assert (len (ColorPalette settings') = len (ColorPalette settings)) as Hl.
  { unfold len. f_equal.
    rewrite <- (length_map Color.Code (ColorPalette settings')), Hc.
    apply length_map. }
  assert (forall i,
    match index (ColorPalette settings') i, index (ColorPalette settings) i with
    | Done a', Done a => Color.Code a' = Color.Code a
    | Panic m', Panic m => m' = m
    | _, _ => False
    end) as Hi.
  { intros i.
    pose proof (index_map Color.Code (ColorPalette settings') i) as E'.
    pose proof (index_map Color.Code (ColorPalette settings) i) as E.
    rewrite Hc, E in E'.
    destruct (index (ColorPalette settings') i),
             (index (ColorPalette settings) i); congruence. }
  rewrite !Render_flat. unfold RenderFlat.
  rewrite Hl, H2, Ha, Ht, Hb.
  destruct (len (ColorPalette settings) <=? 0); [reflexivity|].
  destruct (Int31n _ _) as [i1 rnd1].
  pose proof (Hi i1) as H1.
  destruct (index (ColorPalette settings') i1) as [first'|m'],
           (index (ColorPalette settings) i1) as [first|m];
    try contradiction; [|now subst].
  rewrite H1.
  destruct (hexConvert (Color.Code first)) as [[[? ?] ?] [e|]]; [reflexivity|].
  destruct (Int31n rnd1 _) as [i2 rnd2].
  pose proof (Hi i2) as H2'.
  destruct (index (ColorPalette settings') i2) as [second'|m'],
           (index (ColorPalette settings) i2) as [second|m];
    try contradiction; [|now subst].
  rewrite H2'. reflexivity.
Qed.

(** X13: the nine tiles of an image are coloured by two colours at most,
    both with the configured alpha: the middle tile takes the colour of
    the sides or of the corners, the four sides share one colour and the
    four corners share one.  With [TwoColor] unset all nine tiles have
    the same colour. *)
Theorem Render_tile_colors (code totalSize : Z) (settings : Settings)
    (img : gg.Raster) :
  result (render code totalSize settings) = Done (Some img, None) ->
  exists foreColor otherColor,
    tileColors (gg.drawn img)
    = [ if swapCross code then foreColor else otherColor;
        foreColor; foreColor; foreColor; foreColor;
        otherColor; otherColor; otherColor; otherColor ] /\
    color.A foreColor = Alpha settings /\
    color.A otherColor = Alpha settings /\
    (TwoColor settings = false -> otherColor = foreColor).
Proof.
  rewrite Render_flat. unfold RenderFlat.
  destruct (len (ColorPalette settings) <=? 0); [discriminate|].
  destruct (Int31n _ _) as [i1 rnd1].
  destruct (index (ColorPalette settings) i1) as [first|]; [|discriminate].
  destruct (hexConvert (Color.Code first)) as [[[red green] blue] [e|]];
    [discriminate|].
  destruct (Int31n rnd1 _) as [i2 rnd2].
  destruct (index (ColorPalette settings) i2) as [second|]; [|discriminate].
  destruct (hexConvert (Color.Code second))
    as [[[secondRed secondGreen] secondBlue] [e|]]; [discriminate|].
  set (foreColor := {| color.R := red; color.G := green; color.B := blue;
                       color.A := Alpha settings |}).
  set (otherColor := if TwoColor settings then _ else foreColor).
  assert (color.A otherColor = Alpha settings /\
          (TwoColor settings = false -> otherColor = foreColor)) as [Ha Ho].
  { subst otherColor. destruct (TwoColor settings); split; try reflexivity.
    discriminate. }
  destruct (TransparentBackground settings).
  - cbn [result]. intros H. apply Done_image_inj in H. subst img.
    exists foreColor, otherColor. cbn [gg.drawn].
    rewrite tileColors_nineTiles. auto.
  - destruct (len (BackgroundColors settings) <=? 0); [discriminate|].
    destruct (Int31n rnd2 _) as [i3 rnd3].
    destruct (index (BackgroundColors settings) i3) as [background|];
      [|discriminate].
    destruct (hexConvert background) as [[[bgRed bgGreen] bgBlue] [e|]];
      [discriminate|].
    cbn [result]. intros H. apply Done_image_inj in H. subst img.
    exists foreColor, otherColor. cbn [gg.drawn].
    rewrite tileColors_app, tileColors_nineTiles. auto.
Qed.

(** X14: the shapes of an identicon are decided by the 17 low bits of the
    code: two codes that agree on bits 0-16 and both render to an image
    give images of the same size that make the same calls up to colours. *)
Theorem Render_shape_low_bits (code1 code2 totalSize : Z) (settings : Settings)
    (img1 img2 : gg.Raster) :
  code1 mod 2 ^ 17 = code2 mod 2 ^ 17 ->
  result (render code1 totalSize settings) = Done (Some img1, None) ->
  result (render code2 totalSize settings) = Done (Some img2, None) ->
  gg.side_w img1 = gg.side_w img2 /\ gg.side_h img1 = gg.side_h img2 /\
  blankColors (gg.drawn img1) = blankColors (gg.drawn img2).
Proof.
  intros Hlow H1 H2.
  apply Render_image_calls in H1, H2.
  destruct H1 as (bg1 & m1 & f1 & o1 & Hbg1 & _ & Hw1 & Hh1 & Hd1).
  destruct H2 as (bg2 & m2 & f2 & o2 & Hbg2 & _ & Hw2 & Hh2 & Hd2).
  split; [congruence|]. split; [congruence|].
  rewrite Hd1, Hd2, !blankColors_app.
  rewrite (blankColors_nineTiles _ _ _ m1), (blankColors_nineTiles _ _ _ m2).
  f_equal.
  - destruct Hbg1 as [[T1 ->] | [T1 (r1 & g1 & b1 & ->)]];
      destruct Hbg2 as [[T2 ->] | [T2 (r2 & g2 & b2 & ->)]];
      try congruence; reflexivity.
  - destruct (shape_fields_low_bits code1)
      as (A1 & A2 & A3 & A4 & A5 & A6 & A7 & A8).
    destruct (shape_fields_low_bits code2)
      as (B1 & B2 & B3 & B4 & B5 & B6 & B7 & B8).
    rewrite Hlow in A1, A2, A3, A4, A5, A6, A7, A8.
    unfold nineTiles.
    rewrite <- A1, <- A2, <- A3, <- A4, <- A5, <- A6, <- A7, <- A8.
    rewrite B1, B2, B3, B4, B5, B6, B7, B8. reflexivity.
Qed.

(** X15: in every image that [Render] returns the frames are balanced:
    each tile is drawn inside one frame of its own, pushed and popped
    once, never inside another, and none is left open at the end.  There
    are nine such frames and one fill per tile, plus one fill for an
    opaque background, made outside any frame. *)
Theorem Render_frames_balanced (code totalSize : Z) (settings : Settings)
    (img : gg.Raster) :
  result (render code totalSize settings) = Done (Some img, None) ->
  frameDepth 0 (gg.drawn img) = Some 0%nat /\
  countCalls isPush (gg.drawn img) = 9%nat /\
  countCalls isFill (gg.drawn img)
  = (if TransparentBackground settings then 9 else 10)%nat.
Proof.
  intros H. apply Render_image_calls in H.
  destruct H as (bg & m & f & o & Hbg & _ & _ & _ & Hd).
  rewrite Hd, frameDepth_app, !countCalls_app.
  destruct (nineTiles_frame code totalSize
              (List.nth (Z.to_nat (middleTypeRaw code)) middlePatchSet 0) m f o)
    as (N1 & N2 & N3).
  rewrite N2, N3.
  destruct Hbg as [[-> ->] | [-> (r & g & b & ->)]];
    cbn [frameDepth backgroundCalls countCalls List.filter isPush isFill
         List.length Nat.add]; auto.
Qed.

(** X16: the layout turns with the grid.  In every image the i-th side
    tile stands in the cell reached from (1,0) by i quarter turns of the
    grid about its centre cell, and is turned [sideTurn + 1 + i] times;
    the i-th corner tile stands in the cell reached from (0,0) in the same
    way and is turned [cornerTurn + 1 + i] times.  Four quarter turns
    bring each cell back, and the centre cell does not move. *)
Theorem Render_layout_turns (code totalSize : Z) (settings : Settings)
    (img : gg.Raster) :
  result (render code totalSize settings) = Done (Some img, None) ->
  exists background middle foreColor otherColor,
    let patchSize := (float64 totalSize / 3)%float in
    gg.drawn img
    = background ++ middle
      ++ List.flat_map
           (fun i => tileCalls patchSize (Nat.iter i turnCell (gg.Pt 1 0))
                       (sideTurn code + 1 + Z.of_nat i)
                       (sideInvert code) (sideType code) foreColor)
           [0; 1; 2; 3]%nat
      ++ List.flat_map
           (fun i => tileCalls patchSize (Nat.iter i turnCell (gg.Pt 0 0))
                       (cornerTurn code + 1 + Z.of_nat i)
                       (cornerInvert code) (cornerType code) otherColor)
           [0; 1; 2; 3]%nat /\
    (exists c t, middle = tileCalls patchSize (gg.Pt 1 1) 0
                            (middleInvert code) t c) /\
    turnCell (gg.Pt 1 1) = gg.Pt 1 1 /\
    Nat.iter 4 turnCell (gg.Pt 1 0) = gg.Pt 1 0 /\
    Nat.iter 4 turnCell (gg.Pt 0 0) = gg.Pt 0 0.
Proof.
  intros H. apply Render_image_calls in H.
  destruct H as (bg & m & f & o & _ & _ & _ & _ & Hd).
  exists bg,
    (tileCalls (float64 totalSize / 3)%float (gg.Pt 1 1) 0 (middleInvert code)
       (List.nth (Z.to_nat (middleTypeRaw code)) middlePatchSet 0) m), f, o.
  split; [|split; [eauto | repeat split; reflexivity]].
  rewrite Hd. unfold nineTiles. cbn [List.flat_map Nat.iter Z.of_nat].
  change (turnCell (gg.Pt 1 0)) with (gg.Pt 2 1).
  change (turnCell (gg.Pt 2 1)) with (gg.Pt 1 2).
  change (turnCell (gg.Pt 1 2)) with (gg.Pt 0 1).
  change (turnCell (gg.Pt 0 0)) with (gg.Pt 2 0).
  change (turnCell (gg.Pt 2 0)) with (gg.Pt 2 2).
  change (turnCell (gg.Pt 2 2)) with (gg.Pt 0 2).
  change (Z.pos (Pos.of_succ_nat 0)) with 1.
  change (Z.pos (Pos.of_succ_nat 1)) with 2.
  change (Z.pos (Pos.of_succ_nat 2)) with 3.
  rewrite !app_nil_r. repeat rewrite <- app_assoc. reflexivity.
Qed.


End RendererFurther.

(** ** The server: which paths are served, and with what *)

Lemma Split_nonempty s sep : strings_Split s sep <> [].
Proof.
  destruct s as [|c rest]; cbn [strings_Split]; [discriminate|].
  destruct (Ascii.eqb c sep); [discriminate|].
  destruct (strings_Split rest sep); discriminate.
Qed.

Lemma Split_noSlash s :
  noSlash s = true -> strings_Split s "/"%char = [s].
Proof.
  unfold noSlash. induction s as [|c rest IH]; [reflexivity|].
  cbn [list_ascii_of_string forallb strings_Split].
  intros H. apply andb_true_iff in H. destruct H as [Hc Hr].
  apply negb_true_iff in Hc. rewrite Hc, (IH Hr). reflexivity.
Qed.

Lemma Split_slash pre rest :
  noSlash pre = true ->
  strings_Split (pre ++ String "/"%char rest)%string "/"%char
  = pre :: strings_Split rest "/"%char.
Proof.
  unfold noSlash. induction pre as [|c pre IH].
  - intros _. cbn [append strings_Split Ascii.eqb Bool.eqb]. reflexivity.
  - cbn [list_ascii_of_string forallb append strings_Split].
    intros H. apply andb_true_iff in H. destruct H as [Hc Hr].
    apply negb_true_iff in Hc. rewrite Hc, (IH Hr). reflexivity.
Qed.

(** The pieces have no separator, and joined by it they give the string. *)
Lemma Split_pieces s :
  Forall (fun p => noSlash p = true) (strings_Split s "/"%char) /\
  String.concat "/" (strings_Split s "/"%char) = s.
Proof.
  induction s as [|c rest [IHf IHj]]; [split; [repeat constructor | reflexivity]|].
  cbn [strings_Split].
  destruct (Ascii.eqb_spec c "/"%char) as [->|Hne].
  - split; [constructor; [reflexivity | exact IHf]|].
    cbn [String.concat].
    pose proof (Split_nonempty rest "/"%char) as Hn.
    destruct (strings_Split rest "/"%char) as [|p ps]; [contradiction|].
    cbn [append]. now rewrite IHj.
  - pose proof (Split_nonempty rest "/"%char) as Hn.
    destruct (strings_Split rest "/"%char) as [|p ps]; [contradiction|].
    apply Forall_cons_iff in IHf. destruct IHf as [Hp Hps].
    split.
    + constructor; [|exact Hps]. unfold noSlash in *.
      cbn [list_ascii_of_string forallb]. rewrite Hp.
      apply Ascii.eqb_neq in Hne. now rewrite Hne.
    + destruct ps as [|q qs]; cbn [String.concat append] in *; now rewrite IHj.
Qed.

Lemma substring_all s : substring 0 (String.length s) s = s.
Proof. induction s as [|c s IH]; [reflexivity|]. cbn. now rewrite IH. Qed.

Lemma substring_tail a b n :
  substring (String.length a) n (a ++ b)%string = substring 0 n b.
Proof. induction a as [|c a IH]; [reflexivity|]. cbn. exact IH. Qed.

Lemma substring_head a b :
  substring 0 (String.length a) (a ++ b)%string = a.
Proof. induction a as [|c a IH]; [now destruct b|]. cbn. now rewrite IH. Qed.

Lemma substring_split s k :
  (k <= String.length s)%nat ->
  (substring 0 k s ++ substring k (String.length s - k) s)%string = s.
Proof.
  revert k. induction s as [|c s IH]; intros k Hk.
  - destruct k; reflexivity.
  - destruct k as [|k].
    + cbn [substring append]. rewrite Nat.sub_0_r.
      change (substring 0 (String.length (String c s)) (String c s) = String c s).
      apply substring_all.
    + cbn [substring append String.length Nat.sub].
      rewrite IH by (cbn in Hk; lia). reflexivity.
Qed.

Lemma length_append a b :
  String.length (a ++ b)%string = (String.length a + String.length b)%nat.
Proof. induction a as [|c a IH]; [reflexivity|]. cbn. now rewrite IH. Qed.

Lemma HasSuffix_append name suffix :
  strings_HasSuffix (name ++ suffix)%string suffix = true /\
  strings_TrimSuffix (name ++ suffix)%string suffix = name.
Proof.
  assert (strings_HasSuffix (name ++ suffix)%string suffix = true) as H.
  { unfold strings_HasSuffix. rewrite length_append.
    replace (String.length name + String.length suffix - String.length suffix)%nat
      with (String.length name) by lia.
    rewrite substring_tail, substring_all, String.eqb_refl.
    apply andb_true_iff. split; [apply Nat.leb_le; lia | reflexivity]. }
  split; [exact H|].
  unfold strings_TrimSuffix. rewrite H, length_append.
  replace (String.length name + String.length suffix - String.length suffix)%nat
    with (String.length name) by lia.
  apply substring_head.
Qed.

Lemma HasSuffix_inv s suffix :
  strings_HasSuffix s suffix = true ->
  s = (strings_TrimSuffix s suffix ++ suffix)%string.
Proof.
  intros H. unfold strings_TrimSuffix. rewrite H.
  unfold strings_HasSuffix in H. apply andb_true_iff in H.
  destruct H as [Hl He]. apply Nat.leb_le in Hl. apply String.eqb_eq in He.
  pose proof (substring_split s (String.length s - String.length suffix)
                ltac:(lia)) as P.
  replace (String.length s - (String.length s - String.length suffix))%nat
    with (String.length suffix) in P by lia.
  rewrite He in P. symmetry. exact P.
Qed.

Lemma noSlash_append a b :
  noSlash (a ++ b)%string = noSlash a && noSlash b.
Proof.
  unfold noSlash. induction a as [|c a IH]; [reflexivity|].
  cbn [append list_ascii_of_string forallb]. rewrite IH. apply andb_assoc.
Qed.

Lemma Itoa_parses (n : Z) :
  0 <= n ->
  option_map Z.of_int (NilZero.int_of_string (strconv_Itoa n)) = Some n.
Proof.
  intros Hn. unfold strconv_Itoa.
  rewrite NilZero.isi.
  - cbn [option_map]. now rewrite DecimalZ.of_to.
  - destruct n as [|p|p]; cbn; try discriminate.
    intros [= H]. revert H. apply DecimalPos.Unsigned.to_uint_nonnil.
  - destruct n as [|p|p]; cbn; try discriminate. lia.
Qed.

Section ServerProperties.

Variable Sum512 : list Byte.byte -> array64.
Variable Source : Type.
Variable NewSource : Z -> Source.
Variable Int31n : Source -> Z -> Z * Source.
Variable png_Encode : gg.Raster -> list Byte.byte * option error.
Variable Write : list Byte.byte -> option error.

Local Notation "'serve'" :=
  (handler Sum512 Source NewSource Int31n png_Encode Write).

Lemma handler_item (pre name : string) :
  noSlash pre = true -> noSlash name = true ->
  strings_Split (pre ++ String "/"%char (name ++ ".png"))%string "/"%char
  = [pre; (name ++ ".png")%string].
Proof.
  intros Hp Hn. rewrite Split_slash by exact Hp.
  rewrite Split_noSlash; [reflexivity|].
  rewrite noSlash_append, Hn. reflexivity.
Qed.

(** X17: a request is served exactly when its path is one piece, a slash,
    and a name ending in [.png], with no other slash.  With a generator
    that stays below its bound such a request never fails to render and
    never panics: the handler derives the code of the name without
    [.png], renders it at size 1024 under the default settings, logs the
    name, encodes the image, and answers with the type [image/png], a
    length that reads back as the number of bytes, and the bytes, even
    when the encoder reported an error.  What stands before the slash is
    not looked at. *)
Theorem handler_serves (pre name : string) :
  (forall rnd n, 0 < n -> 0 <= fst (Int31n rnd n) < n) ->
  noSlash pre = true -> noSlash name = true ->
  exists code img,
    Code Sum512 name = Done code /\
    result (Render Source NewSource Int31n code 1024 DefaultSettings)
      = Done (Some img, None) /\
    let buffer := fst (png_Encode img) in
    serve (pre ++ String "/"%char (name ++ ".png"))%string
    = ([ELogPrintf "creating identicon for '%s'\n" name]
       ++ match snd (png_Encode img) with
          | Some _ => [ELogPrintln "unable to encode image." None]
          | None => []
          end
       ++ [ ESetHeader "Content-Type" "image/png";
            ESetHeader "Content-Length" (strconv_Itoa (len buffer));
            EWrite buffer ]
       ++ match Write buffer with
          | Some _ => [ELogPrintln "unable to write image." None]
          | None => []
          end,
       Done tt) /\
    option_map Z.of_int (NilZero.int_of_string (strconv_Itoa (len buffer)))
    = Some (len buffer).
Proof.
  intros Hrange Hp Hn.
  destruct (Code_value Sum512 name) as [Hc _].
  destruct (Render_of_valid_colors Source NewSource Int31n
              (big_endian (final 8 (elems (Sum512 (list_byte_of_string name)))))
              1024 DefaultSettings Hrange
              ltac:(discriminate) ltac:(discriminate) eq_refl)
    as (img & Hres & _).
  eexists. exists img. split; [exact Hc|]. split; [exact Hres|].
  split.
  - unfold handler. rewrite handler_item by assumption.
    cbn [len List.length Z.of_nat Pos.of_succ_nat Z.eqb Pos.eqb negb].
    change (index [(name ++ ".png")%string] 0)
      with (Done (name ++ ".png")%string).
    destruct (HasSuffix_append name ".png") as [-> ->]. cbn [negb].
    rewrite Hc, Hres.
    destruct (png_Encode img) as [buffer err]. reflexivity.
  - apply Itoa_parses. unfold len. lia.
Qed.

(** X18: every other path is answered with status 400 and nothing else:
    the handler rejects a path exactly when it is not of the form piece,
    slash, name ending in [.png], with no other slash.  So an empty
    path, a path without slash, with two slashes or more, or whose last
    piece does not end in [.png] is rejected. *)
Theorem handler_rejects (path : string) :
  serve path = ([EHttpError "" 400], Done tt)
  <-> ~ (exists pre name,
           noSlash pre = true /\ noSlash name = true /\
           path = (pre ++ String "/"%char (name ++ ".png"))%string).
Proof.
  split.
  - intros H (pre & name & Hp & Hn & ->).
    unfold handler in H. rewrite handler_item in H by assumption.
    cbn [len List.length Z.of_nat Pos.of_succ_nat Z.eqb Pos.eqb negb] in H.
    change (index [(name ++ ".png")%string] 0)
      with (Done (name ++ ".png")%string) in H.
    destruct (HasSuffix_append name ".png") as [E1 E2].
    cbv beta iota in H. rewrite E1, E2 in H. cbn [negb] in H.
    destruct (Code Sum512 name); [|discriminate].
    destruct (result (Render Source NewSource Int31n a 1024 DefaultSettings))
      as [[[img|] [err|]]|]; try discriminate.
    destruct (png_Encode img) as [buffer err].
    destruct err; discriminate.
  - intros Hnot. unfold handler.
    destruct (Split_pieces path) as [Hf Hj].
    destruct (strings_Split path "/"%char) as [|a0 args] eqn:Es;
      [now apply Split_nonempty in Es|].
    destruct (negb (len args =? 1)) eqn:El; [reflexivity|].
    apply negb_false_iff, Z.eqb_eq in El.
    destruct args as [|item [|? ?]]; unfold len in El; cbn in El; try lia.
    change (index [item] 0) with (Done item). cbv beta iota.
    destruct (strings_HasSuffix item ".png") eqn:Eh; [|reflexivity].
    exfalso. apply Hnot.
    apply Forall_cons_iff in Hf. destruct Hf as [H0 Hf].
    apply Forall_cons_iff in Hf. destruct Hf as [H1 _].
    exists a0, (strings_TrimSuffix item ".png").
    pose proof (HasSuffix_inv item ".png" Eh) as Ei.
    split; [exact H0|]. split.
    + rewrite Ei, noSlash_append in H1.
      now apply andb_true_iff in H1.
    + rewrite <- Ei. cbn [String.concat] in Hj. now rewrite <- Hj.
Qed.

End ServerProperties.

(** ** The further properties at concrete inputs *)

(** The default background colour is converted to three bytes. *)
Lemma hexConvert_accepts_iff_witness :
  exists r g b, hexConvert DefaultBackgroundColor = (r, g, b, None) /\
                0 <= r < 256 /\ 0 <= g < 256 /\ 0 <= b < 256.
Proof. apply (hexConvert_accepts_iff DefaultBackgroundColor). reflexivity. Defined.

(** Five digits after the [#]: a length error. *)
Lemma hexConvert_error_kinds_witness :
  hexConvert "#12345" = (0, 0, 0, Some ErrLength).
Proof.
  destruct (hexConvert_error_kinds "#12345") as (_ & H & _).
  apply H; reflexivity.
Defined.

Lemma hexConvert_hexColor_witness :
  hexConvert (hexColor 45 62 80) = (45, 62, 80, None).
Proof. apply (hexConvert_hexColor 45 62 80); lia. Defined.

Lemma hexConvert_ignores_case_witness :
  snd (hexConvert (lowerString "#2D3E50")) = None.
Proof.
  destruct (hexConvert_ignores_case "#2D3E50") as [_ H].
  apply H. reflexivity.
Defined.

(** Template 6 to the left of its tile. *)
Lemma templates_stay_in_tile_witness :
  filled (-1) 2 1 [List.nth 6 pathSetGrid []] = false.
Proof.
  apply (templates_stay_in_tile (List.nth 6 pathSetGrid []) (-1) 2 1).
  - cbn. tauto.
  - lia.
  - lia.
Defined.

Lemma middle_templates_turn_invariant_witness :
  List.map turnGrid [(2, 0); (4, 2); (2, 4); (0, 2)]
  = [(4, 2); (2, 4); (0, 2); (2, 0)].
Proof.
  apply (middle_templates_turn_invariant 4). cbn. tauto.
Defined.

Lemma drawPatch_catalogue_bounds_witness :
  drawPatch (gg.Pt 1 1) 0 false 16 (gg.NewContext 3 3) 1 noColor 1
  = Panic "index out of range".
Proof.
  destruct (drawPatch_catalogue_bounds (gg.Pt 1 1) 0 false 16 (gg.NewContext 3 3)
              1%float noColor 1) as [H _].
  apply H. lia.
Defined.




(** A transparent rendering does not see the background list. *)
Lemma Render_transparent_ignores_backgrounds_witness :
  RenderL 0 300 {| TwoColor := true; Alpha := 255; TransparentBackground := true;
                   ColorPalette := DefaultColorPalette;
                   BackgroundColors := ["not a colour"] |}
  = RenderL 0 300 {| TwoColor := true; Alpha := 255; TransparentBackground := true;
                     ColorPalette := DefaultColorPalette;
                     BackgroundColors := [] |}.
Proof.
  apply (Render_transparent_ignores_backgrounds Lehmer.Source Lehmer.NewSource
           Lehmer.Int31n); reflexivity.
Defined.

Lemma Render_ignores_color_names_witness :
  RenderL 0 300 {| TwoColor := true; Alpha := 255; TransparentBackground := false;
                   ColorPalette :=
                     List.map (fun c => {| Color.Name := ""; Color.Code := Color.Code c |})
                       DefaultColorPalette;
                   BackgroundColors := BackgroundColors DefaultSettings |}
  = RenderL 0 300 DefaultSettings.
Proof.
  apply (Render_ignores_color_names Lehmer.Source Lehmer.NewSource
           Lehmer.Int31n); reflexivity.
Defined.

Lemma Render_tile_colors_witness :
  exists foreColor otherColor,
    tileColors (gg.drawn (imageOf (RenderL 0 300 DefaultSettings)))
    = [ otherColor; foreColor; foreColor; foreColor; foreColor;
        otherColor; otherColor; otherColor; otherColor ].
Proof.
  destruct (Render_tile_colors Lehmer.Source Lehmer.NewSource Lehmer.Int31n
              0 300 DefaultSettings (imageOf (RenderL 0 300 DefaultSettings))
              ltac:(vm_compute; reflexivity)) as (f & o & H & _).
  exists f, o. exact H.
Defined.

(** 0 and 2^17 agree on bits 0-16. *)
Lemma Render_shape_low_bits_witness :
  blankColors (gg.drawn (imageOf (RenderL 0 300 DefaultSettings)))
  = blankColors (gg.drawn (imageOf (RenderL (2 ^ 17) 300 DefaultSettings))).
Proof.
  apply (Render_shape_low_bits Lehmer.Source Lehmer.NewSource Lehmer.Int31n
           0 (2 ^ 17) 300 DefaultSettings); vm_compute; reflexivity.
Defined.

Lemma Render_frames_balanced_witness :
  frameDepth 0 (gg.drawn (imageOf (RenderL 0 300 DefaultSettings))) = Some 0%nat.
Proof.
  apply (Render_frames_balanced Lehmer.Source Lehmer.NewSource Lehmer.Int31n
           0 300 DefaultSettings). vm_compute; reflexivity.
Defined.

Lemma Render_layout_turns_witness :
  Nat.iter 4 turnCell (gg.Pt 1 0) = gg.Pt 1 0.
Proof.
  destruct (Render_layout_turns Lehmer.Source Lehmer.NewSource Lehmer.Int31n
              0 300 DefaultSettings (imageOf (RenderL 0 300 DefaultSettings))
              ltac:(vm_compute; reflexivity))
    as (bg & m & f & o & _ & _ & _ & H & _).
  exact H.
Defined.

(** The path [/abc.png], with the digest of zeros, the reference generator,
    an encoder and a writer that do nothing. *)
Lemma handler_serves_witness :
  exists code img,
    Code (fun _ => zeroDigest) "abc" = Done code /\
    result (RenderL code 1024 DefaultSettings) = Done (Some img, None).
Proof.
  destruct (handler_serves (fun _ => zeroDigest) Lehmer.Source Lehmer.NewSource
              Lehmer.Int31n (fun _ => ([], None)) (fun _ => None) "" "abc"
              Lehmer_in_range eq_refl eq_refl) as (code & img & Hc & Hr & _).
  exists code, img. split; [exact Hc | exact Hr].
Defined.

(** A path without [.png] is rejected, so it is not of the served form. *)
Lemma handler_rejects_witness :
  ~ (exists pre name,
       noSlash pre = true /\ noSlash name = true /\
       "/abc" = (pre ++ String "/"%char (name ++ ".png"))%string).
Proof.
  apply (handler_rejects (fun _ => zeroDigest) Lehmer.Source Lehmer.NewSource
           Lehmer.Int31n (fun _ => ([], None)) (fun _ => None) "/abc").
  reflexivity.
Defined.
